(** * Conway's Game of Life on a toroidal grid: life_simulation.py

    A shallow embedding of the simulation core of [life_simulation.py]
    ([random_grid], [add_glider], [update]) together with the properties
    of its specification.

    Modelling conventions.
    - A two-dimensional numpy array is a list of rows, [list (list Z)];
      every array the program builds is rectangular ([is_array]).
    - A cell is a [Z].  The program stores the sentinels 255 and 0 either
      as machine integers ([random_grid]) or as doubles ([np.zeros] in
      [main]); on grids holding only the sentinels the sum of eight cells
      lies in 0..2040 and is a multiple of 255, so neither integer
      wrap-around nor rounding of the true division by 255 is reachable,
      and [int(s / 255)] is [Z.quot s 255].
      The theorems about sums therefore assume a well-formed grid; on
      other arrays the program's sum depends on the element type.
    - A Python exception is the [Raise] branch of the result type [res].
    - Whether numpy can allocate a fresh array of a given number of
      elements depends on the machine; it is a parameter [alloc], which
      gives the exception of a failed allocation.  The copy of an
      existing grid in [update] is taken to succeed.
    - numpy indexing is modelled with its bounds check and its negative
      indices, numpy slicing with its clamping, and slice assignment with
      its shape check, so that the absence of errors is a theorem and not
      an assumption. *)

From Stdlib Require Import ZArith QArith Lia.
From stdpp Require Import base tactics option list numbers.

Local Open Scope Z_scope.

(** ** Exceptions *)

Inductive exn : Type :=
  | IndexError
  | ValueError
  | MemoryError
  | OverflowError.

Inductive res (A : Type) : Type :=
  | Ok (a : A)
  | Raise (e : exn).

Arguments Ok {A} a.
Arguments Raise {A} e.

#[global] Instance res_ret : MRet res := λ A a, Ok a.

#[global] Instance res_bind : MBind res := λ A B k m,
  match m with
  | Ok a => k a
  | Raise e => Raise e
  end.

(** A [for] loop over a list of indices, threading the loop state and
    stopping at the first exception. *)
Fixpoint for_ {St : Type} (xs : list Z) (body : Z → St → res St) (s : St) : res St :=
  match xs with
  | [] => Ok s
  | x :: xs' => s' ← body x s; for_ xs' body s'
  end.

(** Python's [range(N)]: empty when [N <= 0]. *)
Definition range (N : Z) : list Z := Z.of_nat <$> seq 0 (Z.to_nat N).

(** ** Arrays *)

Abbreviation Grid := (list (list Z)).

Module Np.

Definition nrows (g : Grid) : nat := length g.

Definition ncols (g : Grid) : nat :=
  match g with
  | [] => 0%nat
  | row :: _ => length row
  end.

(** Integer index [k] on an axis of length [n]: [-n <= k < n] is
    accepted, a negative index counts from the end. *)
Definition index (n : nat) (k : Z) : res nat :=
  if (0 <=? k) && (k <? Z.of_nat n) then Ok (Z.to_nat k)
  else if (- Z.of_nat n <=? k) && (k <? 0) then Ok (Z.to_nat (k + Z.of_nat n))
  else Raise IndexError.

(** [g[i, j]] *)
Definition getitem (g : Grid) (i j : Z) : res Z :=
  r ← index (nrows g) i;
  c ← index (ncols g) j;
  match g !! r ≫= (.!! c) with
  | Some v => Ok v
  | None => Raise IndexError
  end.

(** [g[i, j] = v] *)
Definition setitem (g : Grid) (i j : Z) (v : Z) : res Grid :=
  r ← index (nrows g) i;
  c ← index (ncols g) j;
  Ok (alter (λ row, <[c := v]> row) r g).

(** Bound [k] of a slice [a:b] on an axis of length [n]: a negative
    bound counts from the end, and the result is clamped to [0..n]. *)
Definition slice_bound (n : nat) (k : Z) : nat :=
  let k' := if k <? 0 then k + Z.of_nat n else k in
  Z.to_nat (Z.min (Z.max k' 0) (Z.of_nat n)).

(** [g[r0:r1, c0:c1] = src], as a step on the content of the array:
    the content after the statement and its outcome.  Along each axis the
    source must have the extent of the selected region or extent 1 (which
    is repeated); numpy checks this before it copies anything, so when the
    shapes cannot be broadcast a [ValueError] is raised and the content is
    the old one. *)
Definition setslice_run (g : Grid) (r0 r1 c0 c1 : nat) (src : Grid) : Grid * res unit :=
  let h := nrows src in
  let w := ncols src in
  if bool_decide ((h = (r1 - r0)%nat ∨ h = 1%nat) ∧ (w = (c1 - c0)%nat ∨ w = 1%nat)) then
    (imap (λ p row,
       imap (λ q v,
         if bool_decide (r0 ≤ p < r1 ∧ c0 ≤ q < c1)%nat
         then
           let a := if bool_decide (h = 1%nat) then 0%nat else (p - r0)%nat in
           let b := if bool_decide (w = 1%nat) then 0%nat else (q - c0)%nat in
           default v (src !! a ≫= (.!! b))
         else v) row) g,
     Ok tt)
  else (g, Raise ValueError).

(** The same assignment seen from its caller when it succeeds: the new
    content of the array. *)
Definition setslice (g : Grid) (r0 r1 c0 c1 : nat) (src : Grid) : res Grid :=
  let s := setslice_run g r0 r1 c0 c1 src in
  _ ← s.2; Ok s.1.

(** [r] rows of [c] cells each, read off a flat vector in row-major
    order. *)
Fixpoint chunks (r c : nat) (flat : list Z) : Grid :=
  match r with
  | O => []
  | S r' => take c flat :: chunks r' c (drop c flat)
  end.

(** [flat.reshape(r, c)]: a negative extent is inferred from the other
    one; at most one extent may be negative. *)
Definition reshape (flat : list Z) (r c : Z) : res Grid :=
  let n := Z.of_nat (length flat) in
  if (r <? 0) && (c <? 0) then Raise ValueError
  else if r <? 0 then
    if (c =? 0) || negb (n mod c =? 0) then Raise ValueError
    else Ok (chunks (Z.to_nat (n / c)) (Z.to_nat c) flat)
  else if c <? 0 then
    if (r =? 0) || negb (n mod r =? 0) then Raise ValueError
    else Ok (chunks (Z.to_nat r) (Z.to_nat (n / r)) flat)
  else if r * c =? n then Ok (chunks (Z.to_nat r) (Z.to_nat c) flat)
  else Raise ValueError.

(** The checks on the probabilities [p] of [np.random.choice]: one
    per element of [a], each in [0, 1], summing to 1. *)
Definition valid_probabilities (a : list Z) (p : list Q) : bool :=
  (length p =? length a)%nat
  && forallb (λ x, Qle_bool 0 x && Qle_bool x 1) p
  && Qeq_bool (foldr Qplus 0%Q p) 1.

(** [np.random.choice(a, size, p=p)] for a two-element [a]: draw
    number [k] of the generator selects the first element when
    [rng k] is [true] (an event of probability [p[0]]) and the second
    otherwise.  The [size] samples need an array that the machine may be
    unable to allocate: [alloc size] is then the exception raised. *)
Definition choice (alloc : Z → option exn) (rng : nat → bool)
    (a : list Z) (size : Z) (p : list Q) : res (list Z) :=
  if size <? 0 then Raise ValueError
  else if negb (valid_probabilities a p) then Raise ValueError
  else
    match alloc size with
    | Some e => Raise e
    | None =>
        Ok ((λ k, default 0 (a !! (if rng k then 0%nat else 1%nat)))
              <$> seq 0 (Z.to_nat size))
    end.

(** [np.zeros(n)]: a flat vector of [n] zeros, when the machine can
    allocate it; otherwise the exception [alloc n]. *)
Definition zeros (alloc : Z → option exn) (n : Z) : res (list Z) :=
  if n <? 0 then Raise ValueError
  else
    match alloc n with
    | Some e => Raise e
    | None => Ok (replicate (Z.to_nat n) 0)
    end.

End Np.

(** ** The program *)

Definition ON : Z := 255.
Definition OFF : Z := 0.
Definition vals : list Z := [ON; OFF].

(** [random_grid(N)]: the generator is the only source of randomness;
    the probabilities are the constants 0.2 and 0.8. *)
Definition random_grid (alloc : Z → option exn) (rng : nat → bool) (N : Z) : res Grid :=
  flat ← Np.choice alloc rng vals (N * N) [2 # 10; 8 # 10]%Q;
  Np.reshape flat N N.

Definition glider : Grid :=
  [ [0; 0; 255];
    [255; 0; 255];
    [0; 255; 255] ].

(** [add_glider(i, j, grid)] as a step on the content of [grid]: the
    content after the call and the outcome of the call. *)
Definition add_glider_run (i j : Z) (grid : Grid) : Grid * res unit :=
  Np.setslice_run grid
    (Np.slice_bound (Np.nrows grid) i) (Np.slice_bound (Np.nrows grid) (i + 3))
    (Np.slice_bound (Np.ncols grid) j) (Np.slice_bound (Np.ncols grid) (j + 3))
    glider.

(** [add_glider(i, j, grid)]: the returned grid is the content of [grid]
    after the call. *)
Definition add_glider (i j : Z) (grid : Grid) : res Grid :=
  Np.setslice grid
    (Np.slice_bound (Np.nrows grid) i) (Np.slice_bound (Np.nrows grid) (i + 3))
    (Np.slice_bound (Np.ncols grid) j) (Np.slice_bound (Np.ncols grid) (j + 3))
    glider.

(** The content of the caller's array after a call that mutates it in
    place: the returned content, or the old one when the call raised
    before writing. *)
Definition grid_after (g : Grid) (r : res Grid) : Grid :=
  match r with
  | Ok g' => g'
  | Raise _ => g
  end.

(** The sum of the eight neighbours of [(i, j)], in the order in which
    the program reads them.  The sum is the exact one: it is the
    program's sum when the eight cells are sentinels, which is what every
    theorem that speaks of a sum or of a generation assumes. *)
Definition neighbour_sum (grid : Grid) (N i j : Z) : res Z :=
  a ← Np.getitem grid i ((j - 1) mod N);
  b ← Np.getitem grid i ((j + 1) mod N);
  c ← Np.getitem grid ((i - 1) mod N) j;
  d ← Np.getitem grid ((i + 1) mod N) j;
  e ← Np.getitem grid ((i - 1) mod N) ((j - 1) mod N);
  f ← Np.getitem grid ((i - 1) mod N) ((j + 1) mod N);
  g ← Np.getitem grid ((i + 1) mod N) ((j - 1) mod N);
  h ← Np.getitem grid ((i + 1) mod N) ((j + 1) mod N);
  Ok (a + b + c + d + e + f + g + h).

(** [total = int(sum / 255)] *)
Definition total (grid : Grid) (N i j : Z) : res Z :=
  s ← neighbour_sum grid N i j;
  Ok (Z.quot s 255).

(** The body of the inner loop: reads [grid], writes [new_grid]. *)
Definition update_cell (grid : Grid) (N : Z) (i j : Z) (new_grid : Grid) : res Grid :=
  t ← total grid N i j;
  c ← Np.getitem grid i j;
  if c =? ON then
    if (t <? 2) || (t >? 3) then Np.setitem new_grid i j OFF
    else Ok new_grid
  else
    if t =? 3 then Np.setitem new_grid i j ON
    else Ok new_grid.

(** The image handle: only the array it displays matters here. *)
Record Image : Type := { img_data : Grid }.

Definition set_data (img : Image) (g : Grid) : Image := {| img_data := g |}.

(** [update(frame_num, img, grid, N)]: the result is the image and the
    content of [grid] after the call. *)
Definition update (frame_num : Z) (img : Image) (grid : Grid) (N : Z) : res (Image * Grid) :=
  let new_grid := grid in
  new_grid ←
    for_ (range N) (λ i ng,
      for_ (range N) (λ j ng', update_cell grid N i j ng') ng) new_grid;
  Ok (set_data img new_grid, new_grid).

(** The same two loops without the copy: every read sees the cells
    already rewritten earlier in the same sweep.  The program does not do
    this; the definition exists to be compared with [update]. *)
Definition update_in_place (grid : Grid) (N : Z) : res Grid :=
  for_ (range N) (λ i ng,
    for_ (range N) (λ j ng', update_cell ng' N i j ng') ng) grid.

(** ** Shapes, well-formed grids and pure readings of the loop body *)

Definition is_array (r c : nat) (g : Grid) : Prop :=
  length g = r ∧ Forall (λ row, length row = c) g.

(** An [N x N] array. *)
Definition is_grid (N : Z) (g : Grid) : Prop :=
  is_array (Z.to_nat N) (Z.to_nat N) g.

(** Every cell is one of the two sentinels. *)
Definition well_formed (g : Grid) : Prop :=
  Forall (Forall (λ v, v = ON ∨ v = OFF)) g.

Definition cell (g : Grid) (p q : nat) : Z :=
  default 0 (g !! p ≫= (.!! q)).

Definition cellZ (g : Grid) (i j : Z) : Z :=
  cell g (Z.to_nat i) (Z.to_nat j).

Definition set_cell (g : Grid) (p q : nat) (v : Z) : Grid :=
  alter (λ row, <[q := v]> row) p g.

(** What [neighbour_sum], [total] and the two branches of [update_cell]
    compute when no read fails. *)
Definition nsum (g : Grid) (N i j : Z) : Z :=
  cellZ g i ((j - 1) mod N) + cellZ g i ((j + 1) mod N) +
  cellZ g ((i - 1) mod N) j + cellZ g ((i + 1) mod N) j +
  cellZ g ((i - 1) mod N) ((j - 1) mod N) + cellZ g ((i - 1) mod N) ((j + 1) mod N) +
  cellZ g ((i + 1) mod N) ((j - 1) mod N) + cellZ g ((i + 1) mod N) ((j + 1) mod N).

Definition ntotal (g : Grid) (N i j : Z) : Z := Z.quot (nsum g N i j) 255.

Definition branch (c t : Z) : Z :=
  if c =? ON then
    if (t <? 2) || (t >? 3) then OFF else c
  else
    if t =? 3 then ON else c.

Definition next_cell (g : Grid) (N : Z) (p q : nat) : Z :=
  branch (cell g p q) (ntotal g N (Z.of_nat p) (Z.of_nat q)).

Definition next_grid (g : Grid) (N : Z) : Grid :=
  imap (λ p row, imap (λ q _, next_cell g N p q) row) g.

(** Cells rewritten before the sweep reaches [(i, k)]. *)
Definition swept (i k p q : nat) : bool :=
  (p <? i)%nat || ((p =? i)%nat && (q <? k)%nat).

Definition sweep_inv (g : Grid) (N : Z) (i k : nat) (ng : Grid) : Prop :=
  is_grid N ng ∧
  ∀ p q, (p < Z.to_nat N)%nat → (q < Z.to_nat N)%nat →
    cell ng p q = if swept i k p q then next_cell g N p q else cell g p q.

(** The same invariant on an array that may be larger than N x N:
    only the cells of the top left N x N block are ever rewritten. *)
Definition block_inv (g : Grid) (r c : nat) (N : Z) (i k : nat) (ng : Grid) : Prop :=
  is_array r c ng ∧
  ∀ p q, (p < r)%nat → (q < c)%nat →
    cell ng p q =
      if (q <? Z.to_nat N)%nat && swept i k p q
      then next_cell g N p q else cell g p q.

(** ** The specification's reading of a generation *)

Inductive state : Type := ALIVE | DEAD.

Definition sentinel (s : state) : Z :=
  match s with
  | ALIVE => ON
  | DEAD => OFF
  end.

Definition state_of (v : Z) : state :=
  if v =? ON then ALIVE else DEAD.

(** The eight offsets (i, j±1), (i±1, j), (i±1, j±1). *)
Definition offsets : list (Z * Z) :=
  [ (0, -1); (0, 1); (-1, 0); (1, 0); (-1, -1); (-1, 1); (1, -1); (1, 1) ].

(** The eight neighbour positions, each component wrapped modulo [N]. *)
Definition neighbours (N i j : Z) : list (Z * Z) :=
  (λ d, ((i + d.1) mod N, (j + d.2) mod N)) <$> offsets.

Definition alive_at (g : Grid) (pos : Z * Z) : bool :=
  cellZ g pos.1 pos.2 =? ON.

(** Number of ALIVE cells among the eight neighbour positions. *)
Definition count_alive (g : Grid) (N i j : Z) : Z :=
  Z.of_nat (length (filter (λ pos, alive_at g pos = true) (neighbours N i j))).

(** The rule table. *)
Definition next_state (s : state) (t : Z) : state :=
  match s with
  | ALIVE =>
      if t <? 2 then DEAD
      else if (t =? 2) || (t =? 3) then ALIVE
      else DEAD
  | DEAD =>
      if t =? 3 then ALIVE else DEAD
  end.

(** The simultaneous update: every cell of the next generation is a
    function of the current generation only. *)
Definition simultaneous_step (N : Z) (g : Grid) : Grid :=
  (λ i, (λ j, sentinel (next_state (state_of (cellZ g i j)) (count_alive g N i j)))
          <$> range N) <$> range N.

Definition indicator (b : bool) : Z := if b then 1 else 0.

(** The grid with the glider written over the 3 x 3 region whose top
    left corner is [(r0, c0)]. *)
Definition stamp (g : Grid) (r0 c0 : nat) : Grid :=
  imap (λ p row,
    imap (λ q v,
      if bool_decide (r0 ≤ p < r0 + 3 ∧ c0 ≤ q < c0 + 3)%nat
      then cell glider (p - r0) (q - c0)
      else v) row) g.

(** The index pairs the loop body reads at [(i, j)]: the eight
    neighbours in program order, then the cell itself. *)
Definition reads (N i j : Z) : list (Z * Z) :=
  [ (i, (j - 1) mod N); (i, (j + 1) mod N);
    ((i - 1) mod N, j); ((i + 1) mod N, j);
    ((i - 1) mod N, (j - 1) mod N); ((i - 1) mod N, (j + 1) mod N);
    ((i + 1) mod N, (j - 1) mod N); ((i + 1) mod N, (j + 1) mod N);
    (i, j) ].

Definition all_dead (g : Grid) : Prop :=
  Forall (Forall (λ v, v = OFF)) g.

#[global] Instance is_array_dec r c g : Decision (is_array r c g).
Proof. unfold is_array. apply _. Defined.

#[global] Instance is_grid_dec N g : Decision (is_grid N g).
Proof. unfold is_grid. apply _. Defined.

#[global] Instance well_formed_dec g : Decision (well_formed g).
Proof. unfold well_formed. apply _. Defined.

#[global] Instance all_dead_dec g : Decision (all_dead g).
Proof. unfold all_dead. apply _. Defined.

(** Decides a closed, decidable side condition by evaluation. *)
Ltac by_evaluation :=
  lazymatch goal with
  | |- ?P => apply (@bool_decide_eq_true_1 P _); vm_compute; reflexivity
  end.

(** ** Concrete grids *)

Definition zeros (N : Z) : Grid :=
  replicate (Z.to_nat N) (replicate (Z.to_nat N) OFF).

(** A 5 x 5 grid whose only ALIVE cell is (0, 0). *)
Definition corner5 : Grid :=
  [ [ON;  OFF; OFF; OFF; OFF];
    [OFF; OFF; OFF; OFF; OFF];
    [OFF; OFF; OFF; OFF; OFF];
    [OFF; OFF; OFF; OFF; OFF];
    [OFF; OFF; OFF; OFF; OFF] ].

(** A horizontal blinker in a 5 x 5 grid. *)
Definition blinker5 : Grid :=
  [ [OFF; OFF; OFF; OFF; OFF];
    [OFF; OFF; OFF; OFF; OFF];
    [OFF; ON;  ON;  ON;  OFF];
    [OFF; OFF; OFF; OFF; OFF];
    [OFF; OFF; OFF; OFF; OFF] ].

(** The cells that have (0, 0) among their wrapped neighbours in a
    5 x 5 grid. *)
Definition corner5_neighbours : list (Z * Z) :=
  [ (4, 4); (4, 0); (4, 1); (0, 4); (0, 1); (1, 4); (1, 0); (1, 1) ].

(** The blinker with one more ALIVE cell, far from the blinker. *)
Definition blinker5_and_corner : Grid :=
  [ [OFF; OFF; OFF; OFF; OFF];
    [OFF; OFF; OFF; OFF; OFF];
    [OFF; ON;  ON;  ON;  OFF];
    [OFF; OFF; OFF; OFF; OFF];
    [OFF; OFF; OFF; OFF; ON] ].

(** A machine on which every allocation succeeds. *)
Definition roomy : Z → option exn := λ _, None.

Definition no_image : Image := {| img_data := [] |}.

(** ** The start of [main] and the animation

    A numeric command-line option is [None] when it is absent or empty
    (both are false in a condition) and otherwise carries what [int]
    makes of its text: a number, or the [ValueError] of a text that is
    not a number. *)
Record Args : Type := {
  arg_N : option (res Z);
  arg_interval : option (res Z);
  arg_glider : bool
}.

(** The option is absent, or its text is a number. *)
Definition parses (a : option (res Z)) : Prop :=
  match a with
  | Some (Raise _) => False
  | _ => True
  end.

(** [N = 100; if args.N and int(args.N) > 8: N = int(args.N)] *)
Definition grid_size (a : option (res Z)) : res Z :=
  match a with
  | None => Ok 100
  | Some parsed =>
      n ← parsed;
      if n >? 8 then parsed else Ok 100
  end.

(** [update_interval = 50; if args.interval: update_interval = int(args.interval)] *)
Definition interval_of (a : option (res Z)) : res Z :=
  match a with
  | None => Ok 50
  | Some parsed => parsed
  end.

(** [main] up to the point where the animation is set up: the grid
    size, the interval and the seeded grid. *)
Definition main_setup (alloc : Z → option exn) (rng : nat → bool) (args : Args)
    : res (Z * Z * Grid) :=
  N ← grid_size (arg_N args);
  update_interval ← interval_of (arg_interval args);
  grid ←
    (if arg_glider args then
       flat ← Np.zeros alloc (N * N);
       grid ← Np.reshape flat N N;
       add_glider 1 1 grid
     else random_grid alloc rng N);
  Ok (N, update_interval, grid).

(** The calls the animation makes: [update] once per frame number, each
    time on the same image and the same array. *)
Fixpoint animate (frames : list Z) (img : Image) (grid : Grid) (N : Z) : res (Image * Grid) :=
  match frames with
  | [] => Ok (img, grid)
  | frame_num :: rest =>
      s ← update frame_num img grid N;
      animate rest s.1 s.2 N
  end.

(** ** Grids given by a function, and symmetries of the torus *)

Definition tabulate (N : Z) (f : Z → Z → Z) : Grid :=
  (λ i, (λ j, f i j) <$> range N) <$> range N.

(** The grid read [a] rows further down and [b] columns further right,
    around the torus. *)
Definition roll (N a b : Z) (g : Grid) : Grid :=
  tabulate N (λ i j, cellZ g ((i + a) mod N) ((j + b) mod N)).

Definition transpose (N : Z) (g : Grid) : Grid :=
  tabulate N (λ i j, cellZ g j i).

(** The grid with its rows in reverse order. *)
Definition flip (N : Z) (g : Grid) : Grid :=
  tabulate N (λ i j, cellZ g (N - 1 - i) j).

(** ** Patterns on an unbounded plane

    A pattern is the list of its ALIVE positions. *)
Definition lit (live : list (Z * Z)) (a b : Z) : Z :=
  if bool_decide ((a, b) ∈ live) then ON else OFF.

Definition pattern_grid (N : Z) (live : list (Z * Z)) : Grid :=
  tabulate N (lit live).

(** The rule of [update_cell] with the eight neighbours read without
    any wrapping. *)
Definition planar_sum (live : list (Z * Z)) (a b : Z) : Z :=
  lit live a (b - 1) + lit live a (b + 1) +
  lit live (a - 1) b + lit live (a + 1) b +
  lit live (a - 1) (b - 1) + lit live (a - 1) (b + 1) +
  lit live (a + 1) (b - 1) + lit live (a + 1) (b + 1).

Definition planar_next (live : list (Z * Z)) (a b : Z) : Z :=
  branch (lit live a b) (Z.quot (planar_sum live a b) 255).

(** The positions [0..m-1] x [0..m-1], row by row. *)
Definition window (m : Z) : list (Z * Z) :=
  i ← range m; (λ j, (i, j)) <$> range m.

(** One generation of a pattern that lies in rows and columns [1..m]:
    its successor lies in rows and columns [0..m+1]. *)
Definition planar_step (m : Z) (live : list (Z * Z)) : list (Z * Z) :=
  filter (λ pos, planar_next live pos.1 pos.2 = ON) (window (m + 2)).

(** Every position of the pattern is in rows and columns [1..m]. *)
Definition within (m : Z) (live : list (Z * Z)) : Prop :=
  Forall (λ pos, 1 ≤ pos.1 ≤ m ∧ 1 ≤ pos.2 ≤ m) live.

#[global] Instance within_dec m live : Decision (within m live).
Proof. unfold within. apply _. Defined.

(** The ALIVE positions of the glider stamped at [(r, c)], row by row. *)
Definition glider_at (r c : Z) : list (Z * Z) :=
  [ (r, c + 2); (r + 1, c); (r + 1, c + 2); (r + 2, c + 1); (r + 2, c + 2) ].

(** The anchors that select three rows (or columns) of an axis of
    length [n], and the first of the three. *)
Definition valid_anchor (n : nat) (k : Z) : Prop :=
  (0 ≤ k ∧ k + 3 ≤ Z.of_nat n) ∨ (- Z.of_nat n ≤ k ∧ k ≤ -4).

Definition anchor_start (n : nat) (k : Z) : nat :=
  if k <? 0 then Z.to_nat (k + Z.of_nat n) else Z.to_nat k.

#[global] Instance valid_anchor_dec n k : Decision (valid_anchor n k).
Proof. unfold valid_anchor. apply _. Defined.

(** * Properties *)

(** ** Arrays: reads and writes inside the bounds *)

Section arrays.
Context {r c : nat} {g : Grid} (Hg : is_array r c g).

Lemma is_array_row p row : g !! p = Some row → length row = c.
Proof.
  destruct Hg as [_ Hrows]. intros Hp.
  by apply (Forall_lookup_1 _ _ _ _ Hrows Hp).
Qed.

Lemma is_array_ncols : (0 < r)%nat → Np.ncols g = c.
Proof.
  intros Hr. destruct Hg as [Hlen Hrows].
  destruct g as [|row rest]; simpl in *; [lia|].
  by inversion Hrows.
Qed.

Lemma cell_lookup p q :
  (p < r)%nat → (q < c)%nat → g !! p ≫= (.!! q) = Some (cell g p q).
Proof.
  intros Hp Hq. unfold cell.
  destruct (lookup_lt_is_Some_2 g p) as [row Hrow]; [destruct Hg; lia|].
  rewrite Hrow. simpl.
  destruct (lookup_lt_is_Some_2 row q) as [v Hv].
  { rewrite (is_array_row _ _ Hrow). lia. }
  by rewrite Hv.
Qed.

Lemma getitem_ok i j :
  0 ≤ i < Z.of_nat r → 0 ≤ j < Z.of_nat c →
  Np.getitem g i j = Ok (cellZ g i j).
Proof.
  intros Hi Hj. unfold Np.getitem, Np.index, Np.nrows.
  rewrite is_array_ncols by lia. destruct Hg as [-> _].
  destruct (Z.leb_spec 0 i), (Z.ltb_spec i (Z.of_nat r)); try lia. simpl.
  destruct (Z.leb_spec 0 j), (Z.ltb_spec j (Z.of_nat c)); try lia. simpl.
  unfold cellZ. rewrite cell_lookup by lia. done.
Qed.

Lemma set_cell_is_array p q v : is_array r c (set_cell g p q v).
Proof.
  destruct Hg as [Hlen Hrows]. split.
  - unfold set_cell. by rewrite length_alter.
  - unfold set_cell. apply Forall_alter; [done|].
    intros row Hrow Hl. by rewrite length_insert.
Qed.

Lemma cell_set_cell p q v p' q' :
  (p < r)%nat → (q < c)%nat →
  cell (set_cell g p q v) p' q' =
    if bool_decide (p' = p ∧ q' = q) then v else cell g p' q'.
Proof.
  intros Hp Hq. unfold cell, set_cell.
  destruct (decide (p = p')) as [<-|Hne].
  - rewrite list_lookup_alter_eq.
    destruct (lookup_lt_is_Some_2 g p) as [row Hrow]; [destruct Hg; lia|].
    rewrite Hrow. simpl.
    destruct (decide (q = q')) as [<-|Hne].
    + rewrite list_lookup_insert_eq.
      * by rewrite bool_decide_eq_true_2.
      * rewrite (is_array_row _ _ Hrow). lia.
    + rewrite list_lookup_insert_ne by done.
      rewrite bool_decide_eq_false_2; [done|]. intros [_ ?]. congruence.
  - rewrite list_lookup_alter_ne by done.
    rewrite bool_decide_eq_false_2; [done|]. intros [? _]. congruence.
Qed.

Lemma setitem_ok i j v :
  0 ≤ i < Z.of_nat r → 0 ≤ j < Z.of_nat c →
  Np.setitem g i j v = Ok (set_cell g (Z.to_nat i) (Z.to_nat j) v).
Proof.
  intros Hi Hj. unfold Np.setitem, Np.index, Np.nrows.
  rewrite is_array_ncols by lia. destruct Hg as [-> _].
  destruct (Z.leb_spec 0 i), (Z.ltb_spec i (Z.of_nat r)); try lia. simpl.
  destruct (Z.leb_spec 0 j), (Z.ltb_spec j (Z.of_nat c)); try lia. simpl.
  done.
Qed.

End arrays.

(** Two arrays of one shape that agree on every cell are equal. *)
Lemma grid_ext r c (g1 g2 : Grid) :
  is_array r c g1 → is_array r c g2 →
  (∀ p q, (p < r)%nat → (q < c)%nat → cell g1 p q = cell g2 p q) →
  g1 = g2.
Proof.
  intros H1 H2 Hcell.
  apply (list_eq_same_length _ _ r); [by destruct H2 | by destruct H1 |].
  intros p row1 row2 Hp Hr1 Hr2.
  apply (list_eq_same_length _ _ c);
    [by apply (is_array_row H2 _ _ Hr2) | by apply (is_array_row H1 _ _ Hr1) |].
  intros q v1 v2 Hq Hv1 Hv2.
  specialize (Hcell p q Hp Hq). unfold cell in Hcell.
  rewrite Hr1, Hr2 in Hcell. simpl in Hcell. rewrite Hv1, Hv2 in Hcell.
  done.
Qed.

(** ** The loop rule *)

Lemma bind_Ok {A B : Type} (a : A) (k : A → res B) : Ok a ≫= k = k a.
Proof. reflexivity. Qed.

Lemma for_cons {St : Type} x xs (body : Z → St → res St) s :
  for_ (x :: xs) body s = body x s ≫= for_ xs body.
Proof. reflexivity. Qed.

Lemma for_seq_inv {St : Type} (P : nat → St → Prop) (body : Z → St → res St) :
  ∀ len start s,
    P start s →
    (∀ k s0, (start ≤ k < start + len)%nat → P k s0 →
       ∃ s1, body (Z.of_nat k) s0 = Ok s1 ∧ P (S k) s1) →
    ∃ s', for_ (Z.of_nat <$> seq start len) body s = Ok s' ∧ P (start + len)%nat s'.
Proof.
  induction len as [|len IH]; intros start s Hstart Hbody.
  - exists s. rewrite Nat.add_0_r. done.
  - destruct (Hbody start s) as (s1 & Hs1 & HP1); [lia | done |].
    destruct (IH (S start) s1) as (s' & Hs' & HP'); [done | |].
    { intros k s0 Hk. apply Hbody. lia. }
    exists s'. rewrite <- Nat.add_succ_comm.
    change (seq start (S len)) with (start :: seq (S start) len).
    rewrite fmap_cons, for_cons, Hs1, bind_Ok. done.
Qed.

Lemma for_range_inv {St : Type} (P : nat → St → Prop) (body : Z → St → res St) n s :
  P 0%nat s →
  (∀ k s0, (k < n)%nat → P k s0 → ∃ s1, body (Z.of_nat k) s0 = Ok s1 ∧ P (S k) s1) →
  ∃ s', for_ (range (Z.of_nat n)) body s = Ok s' ∧ P n s'.
Proof.
  intros H0 Hbody. unfold range. rewrite Nat2Z.id.
  apply (for_seq_inv P body n 0%nat s H0).
  intros k s0 Hk. apply Hbody. lia.
Qed.

(** ** One cell *)

Section one_cell.
Context {N : Z} {g : Grid} (HN : 1 ≤ N) (Hg : is_grid N g).

Lemma getitem_grid i j :
  0 ≤ i < N → 0 ≤ j < N → Np.getitem g i j = Ok (cellZ g i j).
Proof. intros Hi Hj. apply (getitem_ok Hg); lia. Qed.

Lemma wrap_in_range k : 0 ≤ k mod N < N.
Proof. apply Z.mod_pos_bound. lia. Qed.

Lemma neighbour_sum_ok i j :
  0 ≤ i < N → 0 ≤ j < N → neighbour_sum g N i j = Ok (nsum g N i j).
Proof.
  intros Hi Hj. unfold neighbour_sum.
  rewrite !getitem_grid by (done || apply wrap_in_range).
  done.
Qed.

Lemma total_ok i j :
  0 ≤ i < N → 0 ≤ j < N → total g N i j = Ok (ntotal g N i j).
Proof.
  intros Hi Hj. unfold total. by rewrite neighbour_sum_ok.
Qed.

(** The loop body either leaves [new_grid] alone or writes one cell. *)
Lemma update_cell_ok ng (p q : nat) :
  is_grid N ng → Z.of_nat p < N → Z.of_nat q < N →
  ∃ ng', update_cell g N (Z.of_nat p) (Z.of_nat q) ng = Ok ng' ∧
         is_grid N ng' ∧
         (∀ p' q', (p', q') ≠ (p, q) → cell ng' p' q' = cell ng p' q') ∧
         (cell ng p q = cell g p q → cell ng' p q = next_cell g N p q).
Proof.
  intros Hng Hp Hq. unfold update_cell.
  rewrite total_ok, getitem_grid by lia. simpl.
  unfold next_cell, branch, cellZ. rewrite !Nat2Z.id.
  set (t := ntotal g N (Z.of_nat p) (Z.of_nat q)).
  assert (Hset : ∀ v, ∃ ng',
    Np.setitem ng (Z.of_nat p) (Z.of_nat q) v = Ok ng' ∧ is_grid N ng' ∧
    (∀ p' q', (p', q') ≠ (p, q) → cell ng' p' q' = cell ng p' q') ∧
    (cell ng p q = cell g p q → cell ng' p q = v)).
  { intros v. eexists. split; [apply (setitem_ok Hng); lia|].
    rewrite !Nat2Z.id. split; [apply (set_cell_is_array Hng)|]. split.
    - intros p' q' Hne. rewrite (cell_set_cell Hng) by lia.
      rewrite bool_decide_eq_false_2; [done|]. intros [-> ->]. done.
    - intros _. rewrite (cell_set_cell Hng) by lia.
      by rewrite bool_decide_eq_true_2. }
  destruct (cell g p q =? ON).
  - destruct ((t <? 2) || (t >? 3)); [apply Hset|].
    exists ng. split; [done|]. split; [done|]. split; done.
  - destruct (t =? 3); [apply Hset|].
    exists ng. split; [done|]. split; [done|]. split; done.
Qed.

End one_cell.

(** ** The two loops *)

Lemma swept_next_cell i k : swept i (S k) i k = true.
Proof.
  unfold swept. rewrite Nat.eqb_refl.
  destruct (Nat.ltb_spec k (S k)); [|lia]. by rewrite orb_true_r.
Qed.

Lemma swept_here i k : swept i k i k = false.
Proof.
  unfold swept. rewrite Nat.ltb_irrefl. simpl. by rewrite Nat.ltb_irrefl, andb_false_r.
Qed.

Lemma swept_other i k p q : (p, q) ≠ (i, k) → swept i (S k) p q = swept i k p q.
Proof.
  intros Hne. unfold swept. f_equal.
  destruct (Nat.eqb_spec p i) as [->|]; [|done]. simpl.
  destruct (Nat.ltb_spec q (S k)), (Nat.ltb_spec q k); try done; try lia.
  exfalso. apply Hne. f_equal. lia.
Qed.

Lemma swept_next_row n i p q : (q < n)%nat → swept i n p q = swept (S i) 0 p q.
Proof.
  intros Hq. unfold swept.
  destruct (Nat.ltb_spec p i), (Nat.ltb_spec p (S i)), (Nat.eqb_spec p i),
    (Nat.eqb_spec p (S i)), (Nat.ltb_spec q n), (Nat.ltb_spec q 0);
    simpl; try done; lia.
Qed.

Section sweep.
Context {N : Z} {g : Grid} (HN : 1 ≤ N) (Hg : is_grid N g).

Lemma sweep_cell i k ng :
  (i < Z.to_nat N)%nat → (k < Z.to_nat N)%nat →
  sweep_inv g N i k ng →
  ∃ ng', update_cell g N (Z.of_nat i) (Z.of_nat k) ng = Ok ng' ∧
         sweep_inv g N i (S k) ng'.
Proof.
  intros Hi Hk [Hng Hcells].
  destruct (update_cell_ok HN Hg ng i k Hng) as (ng' & Hrun & Hng' & Hframe & Hnew);
    [lia | lia |].
  exists ng'. split; [done|]. split; [done|].
  intros p q Hp Hq.
  destruct (decide ((p, q) = (i, k))) as [[= -> ->]|Hne].
  - rewrite swept_next_cell. apply Hnew.
    rewrite Hcells by done. by rewrite swept_here.
  - rewrite Hframe, swept_other by done. by apply Hcells.
Qed.

Lemma sweep_row i ng :
  (i < Z.to_nat N)%nat →
  sweep_inv g N i 0 ng →
  ∃ ng', for_ (range N) (λ j ng0, update_cell g N (Z.of_nat i) j ng0) ng = Ok ng' ∧
         sweep_inv g N (S i) 0 ng'.
Proof.
  intros Hi Hinv.
  destruct (for_range_inv (sweep_inv g N i)
              (λ j ng0, update_cell g N (Z.of_nat i) j ng0) (Z.to_nat N) ng Hinv)
    as (ng' & Hrun & [Hng' Hcells]).
  { intros k ng0 Hk. by apply sweep_cell. }
  rewrite Z2Nat.id in Hrun by lia.
  exists ng'. split; [done|]. split; [done|].
  intros p q Hp Hq. rewrite <- (swept_next_row (Z.to_nat N)) by done.
  by apply Hcells.
Qed.

Lemma sweep_all :
  ∃ ng', for_ (range N) (λ i ng,
           for_ (range N) (λ j ng0, update_cell g N i j ng0) ng) g = Ok ng' ∧
         sweep_inv g N (Z.to_nat N) 0 ng'.
Proof.
  destruct (for_range_inv (λ i, sweep_inv g N i 0)
              (λ i ng, for_ (range N) (λ j ng0, update_cell g N i j ng0) ng)
              (Z.to_nat N) g)
    as (ng' & Hrun & Hinv).
  - split; [done|]. intros p q _ _. unfold swept.
    destruct (Nat.ltb_spec p 0), (Nat.ltb_spec q 0); try lia.
    by rewrite andb_false_r.
  - intros i ng Hi. by apply sweep_row.
  - rewrite Z2Nat.id in Hrun by lia. by exists ng'.
Qed.

End sweep.

(** ** The whole generation *)

Lemma next_grid_is_array r c g N : is_array r c g → is_array r c (next_grid g N).
Proof.
  intros [Hlen Hrows]. split.
  - unfold next_grid. by rewrite length_imap.
  - apply Forall_lookup_2. intros p row Hrow. unfold next_grid in Hrow.
    rewrite list_lookup_imap in Hrow.
    destruct (g !! p) as [row0|] eqn:Hp; [|done].
    simpl in Hrow. injection Hrow as <-. rewrite length_imap.
    by apply (Forall_lookup_1 _ _ _ _ Hrows Hp).
Qed.

Lemma cell_next_grid r c g N p q :
  is_array r c g → (p < r)%nat → (q < c)%nat →
  cell (next_grid g N) p q = next_cell g N p q.
Proof.
  intros Hg Hp Hq. pose proof (cell_lookup Hg p q Hp Hq) as Hcell.
  unfold cell at 1. unfold next_grid. rewrite list_lookup_imap.
  destruct (g !! p) as [row|]; [|done]. simpl in *.
  rewrite list_lookup_imap. destruct (row !! q); [|done]. done.
Qed.

Lemma range_nonpos N : N ≤ 0 → range N = [].
Proof. intros HN. unfold range. by replace (Z.to_nat N) with 0%nat by lia. Qed.

Lemma update_ok frame_num img g N :
  is_grid N g →
  update frame_num img g N = Ok (set_data img (next_grid g N), next_grid g N).
Proof.
  intros Hg. unfold update.
  destruct (Z.le_gt_cases N 0) as [HN|HN].
  - rewrite range_nonpos by done. destruct Hg as [Hlen _].
    destruct g; [done|]. simpl in Hlen. lia.
  - destruct (sweep_all (N := N) (g := g)) as (ng & -> & Hng & Hcells); [lia | done |].
    rewrite bind_Ok.
    replace ng with (next_grid g N); [done|].
    apply (grid_ext (Z.to_nat N) (Z.to_nat N)); [by apply next_grid_is_array | done |].
    intros p q Hp Hq. rewrite (cell_next_grid _ _ _ _ _ _ Hg Hp Hq).
    rewrite Hcells by done. unfold swept.
    destruct (Nat.ltb_spec p (Z.to_nat N)); [done | lia].
Qed.

(** ** Well-formed grids: counting and the rule table *)

Lemma well_formed_cell r c g p q :
  is_array r c g → well_formed g → (p < r)%nat → (q < c)%nat →
  cell g p q = ON ∨ cell g p q = OFF.
Proof.
  intros Hg Hwf Hp Hq. pose proof (cell_lookup Hg p q Hp Hq) as Hcell.
  destruct (g !! p) as [row|] eqn:Hrow; [|done]. simpl in Hcell.
  pose proof (Forall_lookup_1 _ _ _ _ Hwf Hrow) as Hwfrow.
  by apply (Forall_lookup_1 _ _ _ _ Hwfrow Hcell).
Qed.

Lemma well_formed_cells r c g :
  is_array r c g →
  (∀ p q, (p < r)%nat → (q < c)%nat → cell g p q = ON ∨ cell g p q = OFF) →
  well_formed g.
Proof.
  intros Hg Hcells. apply Forall_lookup_2. intros p row Hrow.
  apply Forall_lookup_2. intros q v Hv.
  assert (Hp : (p < r)%nat) by (destruct Hg as [<- _]; by eapply lookup_lt_Some).
  assert (Hq : (q < c)%nat).
  { rewrite <- (is_array_row Hg _ _ Hrow). by eapply lookup_lt_Some. }
  specialize (Hcells p q Hp Hq). unfold cell in Hcells.
  rewrite Hrow in Hcells. simpl in Hcells. by rewrite Hv in Hcells.
Qed.

Lemma count_cons (g : Grid) pos l :
  Z.of_nat (length (filter (λ pos, alive_at g pos = true) (pos :: l))) =
  indicator (alive_at g pos) +
  Z.of_nat (length (filter (λ pos, alive_at g pos = true) l)).
Proof.
  rewrite filter_cons. destruct (decide (alive_at g pos = true)) as [->|Hne].
  - simpl. lia.
  - apply not_true_is_false in Hne. rewrite Hne. simpl. lia.
Qed.

Lemma sentinel_indicator v : v = ON ∨ v = OFF → v = 255 * indicator (v =? ON).
Proof. by intros [-> | ->]. Qed.

Lemma indicator_bounds b : 0 ≤ indicator b ≤ 1.
Proof. destruct b; simpl; lia. Qed.

Section counting.
Context {N : Z} {g : Grid} (HN : 1 ≤ N) (Hg : is_grid N g) (Hwf : well_formed g).
Context {i j : Z} (Hi : 0 ≤ i < N) (Hj : 0 ≤ j < N).

Lemma well_formed_cellZ a b :
  0 ≤ a < N → 0 ≤ b < N → cellZ g a b = 255 * indicator (alive_at g (a, b)).
Proof.
  intros Ha Hb. apply sentinel_indicator.
  apply (well_formed_cell _ _ _ _ _ Hg Hwf); lia.
Qed.

Lemma neighbours_unfold :
  neighbours N i j =
    [ (i, (j - 1) mod N); (i, (j + 1) mod N);
      ((i - 1) mod N, j); ((i + 1) mod N, j);
      ((i - 1) mod N, (j - 1) mod N); ((i - 1) mod N, (j + 1) mod N);
      ((i + 1) mod N, (j - 1) mod N); ((i + 1) mod N, (j + 1) mod N) ].
Proof.
  unfold neighbours, offsets. simpl.
  rewrite !Z.add_0_r, !(Z.mod_small i N), !(Z.mod_small j N) by lia.
  done.
Qed.

Lemma nsum_count : nsum g N i j = 255 * count_alive g N i j.
Proof.
  unfold count_alive. rewrite neighbours_unfold, !count_cons. simpl.
  unfold nsum.
  rewrite !well_formed_cellZ by (done || apply (wrap_in_range HN)).
  lia.
Qed.

Lemma ntotal_count : ntotal g N i j = count_alive g N i j.
Proof.
  unfold ntotal. rewrite nsum_count, Z.mul_comm. by apply Z.quot_mul.
Qed.

Lemma count_alive_bounds : 0 ≤ count_alive g N i j ≤ 8.
Proof.
  unfold count_alive. rewrite neighbours_unfold, !count_cons. simpl.
  repeat match goal with
         | |- context [indicator ?b] =>
             pose proof (indicator_bounds b); generalize dependent (indicator b); intros
         end.
  lia.
Qed.

End counting.

Lemma branch_table v t :
  v = ON ∨ v = OFF → branch v t = sentinel (next_state (state_of v) t).
Proof.
  intros [-> | ->]; unfold branch, state_of; simpl.
  - destruct (Z.ltb_spec t 2), (Z.gtb_spec t 3), (Z.eqb_spec t 2), (Z.eqb_spec t 3);
      simpl; try done; lia.
  - destruct (Z.eqb_spec t 3); done.
Qed.

(** ** The program's generation is the simultaneous one *)

Lemma range_lookup N p : (p < Z.to_nat N)%nat → range N !! p = Some (Z.of_nat p).
Proof.
  intros Hp. unfold range. rewrite list_lookup_fmap, lookup_seq_lt by done. done.
Qed.

Lemma length_range N : length (range N) = Z.to_nat N.
Proof. unfold range. by rewrite length_fmap, length_seq. Qed.

Lemma simultaneous_step_is_grid N g : is_grid N (simultaneous_step N g).
Proof.
  split.
  - unfold simultaneous_step. by rewrite length_fmap, length_range.
  - unfold simultaneous_step. apply Forall_fmap, Forall_forall. intros i _. simpl.
    by rewrite length_fmap, length_range.
Qed.

Lemma cell_simultaneous_step N g p q :
  (p < Z.to_nat N)%nat → (q < Z.to_nat N)%nat →
  cell (simultaneous_step N g) p q =
    sentinel (next_state (state_of (cell g p q))
                (count_alive g N (Z.of_nat p) (Z.of_nat q))).
Proof.
  intros Hp Hq. unfold cell at 1, simultaneous_step.
  rewrite list_lookup_fmap, range_lookup by done. simpl.
  rewrite list_lookup_fmap, range_lookup by done. simpl.
  unfold cellZ. by rewrite !Nat2Z.id.
Qed.

Lemma next_cell_table N g p q :
  1 ≤ N → is_grid N g → well_formed g →
  (p < Z.to_nat N)%nat → (q < Z.to_nat N)%nat →
  next_cell g N p q =
    sentinel (next_state (state_of (cell g p q))
                (count_alive g N (Z.of_nat p) (Z.of_nat q))).
Proof.
  intros HN Hg Hwf Hp Hq. unfold next_cell.
  rewrite (ntotal_count HN Hg Hwf) by lia.
  apply branch_table. by apply (well_formed_cell _ _ _ _ _ Hg Hwf).
Qed.

Lemma next_grid_simultaneous N g :
  1 ≤ N → is_grid N g → well_formed g → next_grid g N = simultaneous_step N g.
Proof.
  intros HN Hg Hwf.
  apply (grid_ext (Z.to_nat N) (Z.to_nat N));
    [by apply next_grid_is_array | apply simultaneous_step_is_grid |].
  intros p q Hp Hq.
  rewrite (cell_next_grid _ _ _ _ _ _ Hg Hp Hq), cell_simultaneous_step by done.
  by apply next_cell_table.
Qed.

Lemma sentinel_well_formed s : sentinel s = ON ∨ sentinel s = OFF.
Proof. destruct s; [by left | by right]. Qed.

Lemma simultaneous_step_well_formed N g : well_formed (simultaneous_step N g).
Proof.
  apply (well_formed_cells _ _ _ (simultaneous_step_is_grid N g)).
  intros p q Hp Hq. rewrite cell_simultaneous_step by done.
  apply sentinel_well_formed.
Qed.

Lemma all_dead_well_formed g : all_dead g → well_formed g.
Proof.
  intros Hd. apply Forall_lookup_2. intros p row Hrow.
  apply Forall_lookup_2. intros q v Hv. right.
  pose proof (Forall_lookup_1 _ _ _ _ Hd Hrow) as Hdrow.
  by apply (Forall_lookup_1 _ _ _ _ Hdrow Hv).
Qed.

Lemma all_dead_cell r c g p q :
  is_array r c g → all_dead g → (p < r)%nat → (q < c)%nat → cell g p q = OFF.
Proof.
  intros Hg Hd Hp Hq. pose proof (cell_lookup Hg p q Hp Hq) as Hcell.
  destruct (g !! p) as [row|] eqn:Hrow; [|done]. simpl in Hcell.
  pose proof (Forall_lookup_1 _ _ _ _ Hd Hrow) as Hdrow.
  by apply (Forall_lookup_1 _ _ _ _ Hdrow Hcell).
Qed.

Lemma all_dead_nsum N g i j :
  1 ≤ N → is_grid N g → all_dead g → 0 ≤ i < N → 0 ≤ j < N → nsum g N i j = 0.
Proof.
  intros HN Hg Hd Hi Hj.
  assert (Hc : ∀ a b, 0 ≤ a < N → 0 ≤ b < N → cellZ g a b = 0).
  { intros a b Ha Hb. apply (all_dead_cell _ _ _ _ _ Hg Hd); lia. }
  unfold nsum. rewrite !Hc by (done || apply (wrap_in_range HN)). done.
Qed.

(** * The claims about [update] *)

Lemma small_index k : 0 ≤ k < 5 → k = 0 ∨ k = 1 ∨ k = 2 ∨ k = 3 ∨ k = 4.
Proof. lia. Qed.

(** C1 — rule table.  On a well-formed N x N grid, for every cell
    (i, j), [update] returns and the cell's next value is the one the rule
    table gives for the cell's current state and the neighbour total the
    program computed (which lies in 0..8): an ALIVE cell stays ALIVE iff
    the total is 2 or 3 and otherwise becomes DEAD; a DEAD cell becomes
    ALIVE iff the total is exactly 3 and otherwise stays DEAD. *)
Theorem update_rule_table N g frame_num img i j :
  1 ≤ N → is_grid N g → well_formed g → 0 ≤ i < N → 0 ≤ j < N →
  ∃ c t img' g' c',
    Np.getitem g i j = Ok c ∧ (c = ON ∨ c = OFF) ∧
    total g N i j = Ok t ∧ 0 ≤ t ≤ 8 ∧
    update frame_num img g N = Ok (img', g') ∧
    Np.getitem g' i j = Ok c' ∧
    c' = sentinel (next_state (state_of c) t) ∧
    (c = ON → (c' = ON ↔ t = 2 ∨ t = 3) ∧ (¬ (t = 2 ∨ t = 3) → c' = OFF)) ∧
    (c = OFF → (c' = ON ↔ t = 3) ∧ (t ≠ 3 → c' = OFF)).
Proof.
  intros HN Hg Hwf Hi Hj.
  assert (Hp : (Z.to_nat i < Z.to_nat N)%nat) by lia.
  assert (Hq : (Z.to_nat j < Z.to_nat N)%nat) by lia.
  pose proof (well_formed_cell _ _ _ _ _ Hg Hwf Hp Hq) as Hc.
  pose proof (count_alive_bounds (g := g) Hi Hj) as Ht.
  pose proof (next_cell_table N g _ _ HN Hg Hwf Hp Hq) as Hnext.
  rewrite !Z2Nat.id in Hnext by lia.
  exists (cellZ g i j), (count_alive g N i j), (set_data img (next_grid g N)),
    (next_grid g N), (cellZ (next_grid g N) i j).
  split; [by apply (getitem_grid HN Hg)|]. split; [done|].
  split; [by rewrite (total_ok HN Hg), (ntotal_count HN Hg Hwf)|].
  split; [done|]. split; [by apply update_ok|].
  split; [apply (getitem_grid HN (next_grid_is_array _ _ _ _ Hg)); done|].
  assert (Hc' : cellZ (next_grid g N) i j =
                 sentinel (next_state (state_of (cellZ g i j)) (count_alive g N i j))).
  { unfold cellZ. by rewrite (cell_next_grid _ _ _ _ _ _ Hg Hp Hq), Hnext. }
  rewrite Hc'. split; [done|]. clear Hc' Hnext.
  generalize dependent (count_alive g N i j). intros t Ht.
  split.
  - intros ->. unfold state_of. simpl.
    destruct (Z.ltb_spec t 2), (Z.eqb_spec t 2), (Z.eqb_spec t 3); simpl;
      unfold ON, OFF; lia.
  - intros ->. unfold state_of. simpl.
    destruct (Z.eqb_spec t 3); simpl; unfold ON, OFF; lia.
Qed.

Lemma update_rule_table_witness :
  ∃ c t img' g' c',
    Np.getitem blinker5 2 2 = Ok c ∧ (c = ON ∨ c = OFF) ∧
    total blinker5 5 2 2 = Ok t ∧ 0 ≤ t ≤ 8 ∧
    update 0 no_image blinker5 5 = Ok (img', g') ∧
    Np.getitem g' 2 2 = Ok c' ∧
    c' = sentinel (next_state (state_of c) t) ∧
    (c = ON → (c' = ON ↔ t = 2 ∨ t = 3) ∧ (¬ (t = 2 ∨ t = 3) → c' = OFF)) ∧
    (c = OFF → (c' = ON ↔ t = 3) ∧ (t ≠ 3 → c' = OFF)).
Proof.
  apply (update_rule_table 5 blinker5 0 no_image 2 2);
    [lia | by_evaluation | by_evaluation | lia | lia].
Defined.

(** C2 — neighbour count.  On a well-formed N x N grid with N >= 1 the
    [total] the program computes at (i, j) is the number of ALIVE cells
    among the eight neighbour positions (i, j±1), (i±1, j), (i±1, j±1),
    each component taken modulo N; and on the 5 x 5 grid whose only ALIVE
    cell is (0, 0) the total is 1 at exactly the cells (4,4), (4,0),
    (4,1), (0,4), (0,1), (1,4), (1,0), (1,1) and 0 at every other cell. *)
Theorem total_counts_wrapped_neighbours N g i j :
  1 ≤ N → is_grid N g → well_formed g → 0 ≤ i < N → 0 ≤ j < N →
  total g N i j = Ok (count_alive g N i j) ∧
  (∀ a b, 0 ≤ a < 5 → 0 ≤ b < 5 →
     total corner5 5 a b =
       Ok (if bool_decide ((a, b) ∈ corner5_neighbours) then 1 else 0)).
Proof.
  intros HN Hg Hwf Hi Hj. split.
  - by rewrite (total_ok HN Hg), (ntotal_count HN Hg Hwf).
  - intros a b Ha Hb.
    destruct (small_index a Ha) as [->|[->|[->|[->| ->]]]];
      destruct (small_index b Hb) as [->|[->|[->|[->| ->]]]];
      vm_compute; reflexivity.
Qed.

Lemma total_counts_wrapped_neighbours_witness :
  total corner5 5 4 4 = Ok (count_alive corner5 5 4 4) ∧
  (∀ a b, 0 ≤ a < 5 → 0 ≤ b < 5 →
     total corner5 5 a b =
       Ok (if bool_decide ((a, b) ∈ corner5_neighbours) then 1 else 0)).
Proof.
  apply (total_counts_wrapped_neighbours 5 corner5 4 4);
    [lia | by_evaluation | by_evaluation | lia | lia].
Defined.

(** C3 — same-generation isolation.  On a well-formed N x N grid the
    grid [update] produces is the simultaneous update of the current
    generation; this includes inputs on which the two loops run without
    the copy give another result, such as the 5 x 5 blinker. *)
Theorem update_is_simultaneous N g frame_num img :
  1 ≤ N → is_grid N g → well_formed g →
  update frame_num img g N =
    Ok (set_data img (simultaneous_step N g), simultaneous_step N g) ∧
  (is_grid 5 blinker5 ∧ well_formed blinker5 ∧
   (∃ g', update_in_place blinker5 5 = Ok g' ∧ g' ≠ simultaneous_step 5 blinker5) ∧
   update frame_num img blinker5 5 =
     Ok (set_data img (simultaneous_step 5 blinker5), simultaneous_step 5 blinker5)).
Proof.
  intros HN Hg Hwf. split.
  - rewrite (update_ok _ _ _ _ Hg). by rewrite (next_grid_simultaneous N g).
  - split; [by_evaluation|]. split; [by_evaluation|]. split; [|reflexivity].
    eexists. split; [vm_compute; reflexivity|].
    vm_compute. discriminate.
Qed.

Lemma update_is_simultaneous_witness :
  update 0 no_image blinker5 5 =
    Ok (set_data no_image (simultaneous_step 5 blinker5), simultaneous_step 5 blinker5) ∧
  (is_grid 5 blinker5 ∧ well_formed blinker5 ∧
   (∃ g', update_in_place blinker5 5 = Ok g' ∧ g' ≠ simultaneous_step 5 blinker5) ∧
   update 0 no_image blinker5 5 =
     Ok (set_data no_image (simultaneous_step 5 blinker5), simultaneous_step 5 blinker5)).
Proof.
  apply (update_is_simultaneous 5 blinker5 0 no_image);
    [lia | by_evaluation | by_evaluation].
Defined.

(** C8 — the 1 x 1 grid.  With N = 1 every wrapped index the program
    computes is 0, so the single cell is read eight times as its own
    neighbour: a lone ALIVE cell has total 8 and becomes DEAD, a DEAD cell
    has total 0 and stays DEAD. *)
Theorem single_cell_is_its_own_neighbour frame_num img :
  neighbours 1 0 0 = replicate 8 (0, 0) ∧
  reads 1 0 0 = replicate 9 (0, 0) ∧
  total [[ON]] 1 0 0 = Ok 8 ∧
  update frame_num img [[ON]] 1 = Ok (set_data img [[OFF]], [[OFF]]) ∧
  total [[OFF]] 1 0 0 = Ok 0 ∧
  update frame_num img [[OFF]] 1 = Ok (set_data img [[OFF]], [[OFF]]).
Proof. repeat split; reflexivity. Qed.

(** C9 — [update] is total and error-free.  On a well-formed N x N grid
    with N >= 1, at every cell every index pair the loop body reads is
    inside the grid and the read succeeds, the neighbour sum is a multiple
    of 255 in 0..2040, the loop body returns for any N x N [new_grid]; and
    [update] returns a well-formed N x N grid. *)
Theorem update_total_error_free N g frame_num img :
  1 ≤ N → is_grid N g → well_formed g →
  (∀ i j, 0 ≤ i < N → 0 ≤ j < N →
     Forall (λ pos, 0 ≤ pos.1 < N ∧ 0 ≤ pos.2 < N ∧
                    ∃ v, Np.getitem g pos.1 pos.2 = Ok v) (reads N i j) ∧
     (∃ s, neighbour_sum g N i j = Ok s ∧ 0 ≤ s ≤ 2040 ∧ s mod 255 = 0) ∧
     (∀ ng, is_grid N ng → ∃ ng', update_cell g N i j ng = Ok ng' ∧ is_grid N ng')) ∧
  ∃ img' g', update frame_num img g N = Ok (img', g') ∧
             is_grid N g' ∧ well_formed g'.
Proof.
  intros HN Hg Hwf. split.
  - intros i j Hi Hj. split; [|split].
    + pose proof (wrap_in_range HN) as Hw.
      assert (Hread : ∀ a b, 0 ≤ a < N → 0 ≤ b < N →
                0 ≤ (a, b).1 < N ∧ 0 ≤ (a, b).2 < N ∧
                ∃ v, Np.getitem g (a, b).1 (a, b).2 = Ok v).
      { intros a b Ha Hb. simpl. split; [done|]. split; [done|].
        eexists. by apply (getitem_grid HN Hg). }
      unfold reads.
      repeat (apply Forall_cons_2; [apply Hread; (done || apply Hw)|]).
      apply Forall_nil_2.
    + exists (nsum g N i j). split; [by apply (neighbour_sum_ok HN Hg)|].
      rewrite (nsum_count HN Hg Hwf Hi Hj).
      pose proof (count_alive_bounds (g := g) Hi Hj). split; [lia|].
      rewrite Z.mul_comm. by apply Z.mod_mul.
    + intros ng Hng.
      destruct (update_cell_ok HN Hg ng (Z.to_nat i) (Z.to_nat j) Hng)
        as (ng' & Hrun & Hng' & _); [lia | lia |].
      rewrite !Z2Nat.id in Hrun by lia. by exists ng'.
  - exists (set_data img (simultaneous_step N g)), (simultaneous_step N g).
    split; [|split].
    + rewrite (update_ok _ _ _ _ Hg). by rewrite (next_grid_simultaneous N g).
    + apply simultaneous_step_is_grid.
    + apply simultaneous_step_well_formed.
Qed.

Lemma update_total_error_free_witness :
  (∀ i j, 0 ≤ i < 5 → 0 ≤ j < 5 →
     Forall (λ pos, 0 ≤ pos.1 < 5 ∧ 0 ≤ pos.2 < 5 ∧
                    ∃ v, Np.getitem corner5 pos.1 pos.2 = Ok v) (reads 5 i j) ∧
     (∃ s, neighbour_sum corner5 5 i j = Ok s ∧ 0 ≤ s ≤ 2040 ∧ s mod 255 = 0) ∧
     (∀ ng, is_grid 5 ng → ∃ ng', update_cell corner5 5 i j ng = Ok ng' ∧ is_grid 5 ng')) ∧
  ∃ img' g', update 0 no_image corner5 5 = Ok (img', g') ∧
             is_grid 5 g' ∧ well_formed g'.
Proof.
  apply (update_total_error_free 5 corner5 0 no_image);
    [lia | by_evaluation | by_evaluation].
Defined.

(** C10 — the all-DEAD grid is a fixed point.  If every cell of an
    N x N grid (N >= 1) is DEAD, every neighbour total is 0 and [update]
    returns the same grid. *)
Theorem all_dead_fixed_point N g frame_num img :
  1 ≤ N → is_grid N g → all_dead g →
  (∀ i j, 0 ≤ i < N → 0 ≤ j < N → total g N i j = Ok 0) ∧
  update frame_num img g N = Ok (set_data img g, g).
Proof.
  intros HN Hg Hd. split.
  - intros i j Hi Hj. rewrite (total_ok HN Hg) by done.
    unfold ntotal. by rewrite (all_dead_nsum N g i j).
  - rewrite (update_ok _ _ _ _ Hg).
    replace (next_grid g N) with g; [done|].
    apply (grid_ext (Z.to_nat N) (Z.to_nat N)); [done | by apply next_grid_is_array |].
    intros p q Hp Hq. rewrite (cell_next_grid _ _ _ _ _ _ Hg Hp Hq).
    unfold next_cell, ntotal. rewrite (all_dead_nsum N g) by (done || lia).
    by rewrite (all_dead_cell _ _ _ _ _ Hg Hd Hp Hq).
Qed.

Lemma all_dead_fixed_point_witness :
  (∀ i j, 0 ≤ i < 3 → 0 ≤ j < 3 → total (zeros 3) 3 i j = Ok 0) ∧
  update 0 no_image (zeros 3) 3 = Ok (set_data no_image (zeros 3), zeros 3).
Proof.
  apply (all_dead_fixed_point 3 (zeros 3) 0 no_image);
    [lia | by_evaluation | by_evaluation].
Defined.

(** * Seeding *)

(** ** Stamping the glider *)

Lemma glider_cells a b : cell glider a b = ON ∨ cell glider a b = OFF.
Proof.
  destruct a as [|[|[|a]]]; destruct b as [|[|[|b]]]; vm_compute; auto.
Qed.

Lemma glider_lookup a b v :
  (a < 3)%nat → (b < 3)%nat → default v (glider !! a ≫= (.!! b)) = cell glider a b.
Proof.
  intros Ha Hb.
  destruct a as [|[|[|a]]]; [| | |lia]; (destruct b as [|[|[|b]]]; [| | |lia]);
    reflexivity.
Qed.

Lemma setslice_run_glider g r0 r1 c0 c1 :
  Np.setslice_run g r0 r1 c0 c1 glider =
    if bool_decide ((r1 - r0 = 3 ∧ c1 - c0 = 3)%nat)
    then (stamp g r0 c0, Ok tt) else (g, Raise ValueError).
Proof.
  unfold Np.setslice_run.
  change (Np.nrows glider) with 3%nat. change (Np.ncols glider) with 3%nat.
  destruct (decide ((r1 - r0 = 3 ∧ c1 - c0 = 3)%nat)) as [[Hr Hc]|Hne].
  - rewrite (bool_decide_eq_true_2 (_ ∧ (3 = (c1 - c0) ∨ _))%nat) by (split; left; done).
    rewrite (bool_decide_eq_true_2 ((r1 - r0) = _ ∧ _)%nat) by done.
    f_equal. unfold stamp. apply imap_ext. intros p row _.
    apply imap_ext. intros q v _.
    rewrite !(bool_decide_eq_false_2 (3%nat = 1%nat)) by lia.
    destruct (decide (r0 ≤ p < r1 ∧ c0 ≤ q < c1)%nat) as [Hin|Hout].
    + rewrite !bool_decide_eq_true_2 by (done || lia).
      apply glider_lookup; lia.
    + rewrite !bool_decide_eq_false_2 by (done || lia). done.
  - rewrite (bool_decide_eq_false_2 ((r1 - r0) = _ ∧ _)%nat) by done.
    rewrite bool_decide_eq_false_2; [done|].
    intros [[?|?] [?|?]]; lia.
Qed.

Lemma setslice_glider g r0 r1 c0 c1 :
  Np.setslice g r0 r1 c0 c1 glider =
    if bool_decide ((r1 - r0 = 3 ∧ c1 - c0 = 3)%nat)
    then Ok (stamp g r0 c0) else Raise ValueError.
Proof.
  unfold Np.setslice. rewrite setslice_run_glider.
  by case_bool_decide.
Qed.

(** What the caller of [add_glider] sees is what the step on the array
    does. *)
Lemma add_glider_is_its_run i j g :
  add_glider i j g = (_ ← (add_glider_run i j g).2; Ok (add_glider_run i j g).1) ∧
  grid_after g (add_glider i j g) = (add_glider_run i j g).1.
Proof.
  unfold add_glider, add_glider_run, Np.setslice.
  rewrite setslice_run_glider. by case_bool_decide.
Qed.

Lemma stamp_is_array r c g r0 c0 : is_array r c g → is_array r c (stamp g r0 c0).
Proof.
  intros [Hlen Hrows]. split.
  - unfold stamp. by rewrite length_imap.
  - apply Forall_lookup_2. intros p row Hrow. unfold stamp in Hrow.
    rewrite list_lookup_imap in Hrow.
    destruct (g !! p) as [row0|] eqn:Hp; [|done].
    simpl in Hrow. injection Hrow as <-. rewrite length_imap.
    by apply (Forall_lookup_1 _ _ _ _ Hrows Hp).
Qed.

Lemma cell_stamp r c g r0 c0 p q :
  is_array r c g → (p < r)%nat → (q < c)%nat →
  cell (stamp g r0 c0) p q =
    if bool_decide (r0 ≤ p < r0 + 3 ∧ c0 ≤ q < c0 + 3)%nat
    then cell glider (p - r0) (q - c0) else cell g p q.
Proof.
  intros Hg Hp Hq. pose proof (cell_lookup Hg p q Hp Hq) as Hcell.
  unfold cell at 1. unfold stamp. rewrite list_lookup_imap.
  destruct (g !! p) as [row|]; [|done]. simpl in *.
  rewrite list_lookup_imap, Hcell. done.
Qed.

Lemma stamp_well_formed g r0 c0 : well_formed g → well_formed (stamp g r0 c0).
Proof.
  intros Hwf. apply Forall_lookup_2. intros p row' Hrow'.
  unfold stamp in Hrow'. apply list_lookup_imap_Some in Hrow' as (row & Hrow & ->).
  apply Forall_lookup_2. intros q v' Hv'.
  apply list_lookup_imap_Some in Hv' as (v & Hv & ->).
  case_bool_decide; [apply glider_cells|].
  pose proof (Forall_lookup_1 _ _ _ _ Hwf Hrow) as Hwfrow.
  by apply (Forall_lookup_1 _ _ _ _ Hwfrow Hv).
Qed.

Lemma slice_bound_inside n k :
  0 ≤ k ≤ Z.of_nat n → Np.slice_bound n k = Z.to_nat k.
Proof. intros Hk. unfold Np.slice_bound. destruct (Z.ltb_spec k 0); lia. Qed.

Lemma add_glider_inside r c g i j :
  is_array r c g →
  0 ≤ i → i + 3 ≤ Z.of_nat r → 0 ≤ j → j + 3 ≤ Z.of_nat c →
  add_glider i j g = Ok (stamp g (Z.to_nat i) (Z.to_nat j)).
Proof.
  intros Hg Hi Hi' Hj Hj'. unfold add_glider. rewrite setslice_glider.
  rewrite (is_array_ncols Hg) by lia. unfold Np.nrows. destruct Hg as [-> _].
  rewrite !slice_bound_inside by lia.
  rewrite bool_decide_eq_true_2 by lia. done.
Qed.

Lemma add_glider_Ok i j g g' :
  add_glider i j g = Ok g' → ∃ r0 c0, g' = stamp g r0 c0.
Proof.
  unfold add_glider. rewrite setslice_glider.
  case_bool_decide; [|done]. intros [= <-]. eauto.
Qed.

(** ** Random seeding *)

Lemma chunks_is_array r c flat :
  length flat = (r * c)%nat → is_array r c (Np.chunks r c flat).
Proof.
  revert flat. induction r as [|r IH]; intros flat Hlen; simpl.
  - split; [done | constructor].
  - destruct (IH (drop c flat)) as [Hl Hrows]; [rewrite length_drop; lia|].
    split; simpl; [by rewrite Hl|].
    constructor; [|done]. rewrite length_take. lia.
Qed.

Lemma chunks_Forall (P : Z → Prop) r c flat :
  Forall P flat → Forall (Forall P) (Np.chunks r c flat).
Proof.
  revert flat. induction r as [|r IH]; intros flat HP; simpl; [constructor|].
  constructor; [by apply Forall_take | by apply IH, Forall_drop].
Qed.

Lemma draw_is_sentinel (b : bool) :
  default 0 (vals !! (if b then 0%nat else 1%nat)) = ON ∨
  default 0 (vals !! (if b then 0%nat else 1%nat)) = OFF.
Proof. destruct b; [by left | by right]. Qed.

Lemma random_grid_nonneg alloc rng N :
  0 ≤ N → alloc (N * N) = None →
  ∃ g, random_grid alloc rng N = Ok g ∧ is_grid N g ∧ well_formed g.
Proof.
  intros HN Hroom. unfold random_grid, Np.choice.
  destruct (Z.ltb_spec (N * N) 0) as [Hneg|_]; [nia|].
  change (Np.valid_probabilities vals [2 # 10; 8 # 10]%Q) with true.
  simpl negb. cbv iota. rewrite Hroom, bind_Ok. unfold Np.reshape.
  destruct (Z.ltb_spec N 0) as [Hneg|_]; [lia|]. simpl andb. cbv iota.
  rewrite length_fmap, length_seq, Z2Nat.id by nia.
  rewrite Z.eqb_refl.
  eexists. split; [done|]. split.
  - apply chunks_is_array. rewrite length_fmap, length_seq. nia.
  - apply chunks_Forall. apply Forall_fmap, Forall_forall. intros k _.
    apply draw_is_sentinel.
Qed.

Lemma random_grid_negative alloc rng N :
  N < 0 → alloc (N * N) = None → random_grid alloc rng N = Raise ValueError.
Proof.
  intros HN Hroom. unfold random_grid, Np.choice.
  destruct (Z.ltb_spec (N * N) 0) as [Hneg|_]; [nia|].
  change (Np.valid_probabilities vals [2 # 10; 8 # 10]%Q) with true.
  simpl negb. cbv iota. rewrite Hroom, bind_Ok. unfold Np.reshape.
  destruct (Z.ltb_spec N 0) as [_|Hpos]; [done | lia].
Qed.

Lemma random_grid_no_room alloc rng N e :
  alloc (N * N) = Some e → random_grid alloc rng N = Raise e.
Proof.
  intros Hfull. unfold random_grid, Np.choice.
  destruct (Z.ltb_spec (N * N) 0) as [Hneg|_]; [nia|].
  change (Np.valid_probabilities vals [2 # 10; 8 # 10]%Q) with true.
  simpl negb. cbv iota. rewrite Hfull. reflexivity.
Qed.

Lemma branch_sentinel c t : c = ON ∨ c = OFF → branch c t = ON ∨ branch c t = OFF.
Proof.
  intros Hc. rewrite (branch_table c t Hc). apply sentinel_well_formed.
Qed.

Lemma next_grid_well_formed N g :
  is_grid N g → well_formed g → well_formed (next_grid g N).
Proof.
  intros Hg Hwf.
  apply (well_formed_cells _ _ _ (next_grid_is_array _ _ _ N Hg)).
  intros p q Hp Hq. rewrite (cell_next_grid _ _ _ _ _ _ Hg Hp Hq).
  apply branch_sentinel. by apply (well_formed_cell _ _ _ _ _ Hg Hwf).
Qed.

(** * The claims about seeding *)

(** C4, as the program has it.  [random_grid] takes the dimension only
    (the ON-probability is the constant 0.2) and validates nothing itself.
    When numpy cannot allocate the N * N samples, the call raises the
    allocation's exception.  When it can: for every N >= 0, N = 0
    included, the call raises no error and returns an N x N grid of
    sentinels; for N < 0 the reshape to a shape with two negative extents
    raises numpy's ValueError. *)
Theorem random_grid_outcome alloc rng N :
  (∀ e, alloc (N * N) = Some e → random_grid alloc rng N = Raise e) ∧
  (alloc (N * N) = None →
     (0 ≤ N ∧ ∃ g, random_grid alloc rng N = Ok g ∧ is_grid N g ∧ well_formed g) ∨
     (N < 0 ∧ random_grid alloc rng N = Raise ValueError)).
Proof.
  split.
  - intros e Hfull. by apply random_grid_no_room.
  - intros Hroom. destruct (Z.le_gt_cases 0 N) as [HN|HN].
    + left. split; [done|]. by apply random_grid_nonneg.
    + right. split; [lia|]. apply random_grid_negative; [lia | done].
Qed.

Lemma random_grid_outcome_witness :
  (∀ e, roomy (3 * 3) = Some e → random_grid roomy Nat.even 3 = Raise e) ∧
  (roomy (3 * 3) = None →
     (0 ≤ 3 ∧ ∃ g, random_grid roomy Nat.even 3 = Ok g ∧ is_grid 3 g ∧ well_formed g) ∨
     (3 < 0 ∧ random_grid roomy Nat.even 3 = Raise ValueError)).
Proof. apply (random_grid_outcome roomy Nat.even 3). Defined.

(** C4 as stated fails at N = 0: the call returns the empty grid, so
    not every dimension N <= 0 makes [random_grid] fail. *)
Lemma random_grid_zero_returns :
  random_grid roomy (λ _, true) 0 = Ok [] ∧
  ¬ (∀ alloc rng N, N ≤ 0 → ∃ e, random_grid alloc rng N = Raise e).
Proof.
  split; [reflexivity|].
  intros Hfail. destruct (Hfail roomy (λ _, true) 0) as [e He]; [lia|].
  discriminate He.
Qed.

(** C5 — the glider stamp.  For an array of any shape and an anchor
    (i, j) whose 3 x 3 region lies inside it, [add_glider] returns, the
    region holds DEAD DEAD ALIVE / ALIVE DEAD ALIVE / DEAD ALIVE ALIVE,
    and every cell outside the region keeps its value. *)
Theorem add_glider_stamps_region r c g i j :
  is_array r c g →
  0 ≤ i → i + 3 ≤ Z.of_nat r → 0 ≤ j → j + 3 ≤ Z.of_nat c →
  ∃ g', add_glider i j g = Ok g' ∧ is_array r c g' ∧
    (∀ a b, 0 ≤ a < 3 → 0 ≤ b < 3 →
       Np.getitem g' (i + a) (j + b) =
       Np.getitem [ [OFF; OFF; ON]; [ON; OFF; ON]; [OFF; ON; ON] ] a b) ∧
    (∀ p q, 0 ≤ p < Z.of_nat r → 0 ≤ q < Z.of_nat c →
       ¬ (i ≤ p < i + 3 ∧ j ≤ q < j + 3) →
       Np.getitem g' p q = Np.getitem g p q).
Proof.
  intros Hg Hi Hi' Hj Hj'.
  exists (stamp g (Z.to_nat i) (Z.to_nat j)).
  pose proof (stamp_is_array r c g (Z.to_nat i) (Z.to_nat j) Hg) as Hg'.
  split; [by apply (add_glider_inside r c)|]. split; [done|]. split.
  - intros a b Ha Hb.
    rewrite (getitem_ok Hg') by lia.
    assert (Hpat : is_array 3 3 [ [OFF; OFF; ON]; [ON; OFF; ON]; [OFF; ON; ON] ])
      by by_evaluation.
    rewrite (getitem_ok Hpat) by lia. f_equal.
    unfold cellZ. rewrite (cell_stamp r c) by (done || lia).
    rewrite bool_decide_eq_true_2 by lia.
    replace (Z.to_nat (i + a) - Z.to_nat i)%nat with (Z.to_nat a) by lia.
    replace (Z.to_nat (j + b) - Z.to_nat j)%nat with (Z.to_nat b) by lia.
    done.
  - intros p q Hp Hq Hout.
    rewrite (getitem_ok Hg'), (getitem_ok Hg) by lia. f_equal.
    unfold cellZ. rewrite (cell_stamp r c) by (done || lia).
    rewrite bool_decide_eq_false_2; [done | lia].
Qed.

Lemma add_glider_stamps_region_witness :
  ∃ g', add_glider 1 1 (zeros 5) = Ok g' ∧ is_array 5 5 g' ∧
    (∀ a b, 0 ≤ a < 3 → 0 ≤ b < 3 →
       Np.getitem g' (1 + a) (1 + b) =
       Np.getitem [ [OFF; OFF; ON]; [ON; OFF; ON]; [OFF; ON; ON] ] a b) ∧
    (∀ p q, 0 ≤ p < Z.of_nat 5 → 0 ≤ q < Z.of_nat 5 →
       ¬ (1 ≤ p < 1 + 3 ∧ 1 ≤ q < 1 + 3) →
       Np.getitem g' p q = Np.getitem (zeros 5) p q).
Proof.
  apply (add_glider_stamps_region 5 5 (zeros 5) 1 1);
    [by_evaluation | lia | simpl; lia | lia | simpl; lia].
Defined.

(** C6 as stated fails for an anchor coordinate k with -n <= k <= -4:
    the slice bounds then count from the end of the axis, and on an 8 x 8
    grid the anchor (-4, -4), whose region -4..-2 is outside the grid,
    stamps rows and columns 4..6 without any error.  The amended claim is
    proved below, after the anchors that [add_glider] accepts. *)
Lemma add_glider_negative_anchor_stamps :
  ∃ g', add_glider (-4) (-4) (zeros 8) = Ok g' ∧
        Np.getitem (zeros 8) 4 6 = Ok OFF ∧ Np.getitem g' 4 6 = Ok ON.
Proof. eexists. repeat split; reflexivity. Qed.

(** C7 — well-formedness is an invariant.  A grid returned by
    [random_grid] holds only the two sentinels (and one is returned for
    every N >= 0 whose N * N samples numpy can allocate); the glider
    pattern holds only the two sentinels, so
    [add_glider] keeps a well-formed grid well-formed whether it stamps or
    raises; and [update] on a well-formed N x N grid returns a well-formed
    N x N grid. *)
Theorem well_formed_is_invariant :
  (∀ alloc rng N g, random_grid alloc rng N = Ok g → well_formed g) ∧
  (∀ alloc rng N, 0 ≤ N → alloc (N * N) = None →
     ∃ g, random_grid alloc rng N = Ok g ∧ well_formed g) ∧
  well_formed glider ∧
  (∀ i j g, well_formed g → well_formed (grid_after g (add_glider i j g))) ∧
  (∀ N g frame_num img, is_grid N g → well_formed g →
     ∃ img' g', update frame_num img g N = Ok (img', g') ∧
                is_grid N g' ∧ well_formed g').
Proof.
  split; [|split; [|split; [|split]]].
  - intros alloc rng N g Hrun.
    destruct (alloc (N * N)) as [e|] eqn:Hroom.
    { rewrite (random_grid_no_room alloc rng N e Hroom) in Hrun. discriminate Hrun. }
    destruct (Z.le_gt_cases 0 N) as [HN|HN].
    + destruct (random_grid_nonneg alloc rng N HN Hroom) as (g0 & Hg0 & _ & Hwf).
      congruence.
    + rewrite random_grid_negative in Hrun by (done || lia). discriminate Hrun.
  - intros alloc rng N HN Hroom.
    destruct (random_grid_nonneg alloc rng N HN Hroom) as (g & Hg & _ & Hwf). eauto.
  - by_evaluation.
  - intros i j g Hwf. destruct (add_glider i j g) as [g'|e] eqn:Hrun; [|done].
    apply add_glider_Ok in Hrun as (r0 & c0 & ->). by apply stamp_well_formed.
  - intros N g frame_num img Hg Hwf.
    exists (set_data img (next_grid g N)), (next_grid g N).
    split; [by apply update_ok|]. split; [by apply next_grid_is_array|].
    by apply next_grid_well_formed.
Qed.

(** * Further properties of the program *)

(** ** Grids given by a function *)

Lemma tabulate_is_grid N f : is_grid N (tabulate N f).
Proof.
  split.
  - unfold tabulate. by rewrite length_fmap, length_range.
  - unfold tabulate. apply Forall_fmap, Forall_forall. intros i _. simpl.
    by rewrite length_fmap, length_range.
Qed.

Lemma cell_tabulate N f p q :
  (p < Z.to_nat N)%nat → (q < Z.to_nat N)%nat →
  cell (tabulate N f) p q = f (Z.of_nat p) (Z.of_nat q).
Proof.
  intros Hp Hq. unfold cell, tabulate.
  rewrite list_lookup_fmap, range_lookup by done. simpl.
  rewrite list_lookup_fmap, range_lookup by done. done.
Qed.

Lemma cellZ_tabulate N f i j :
  0 ≤ i < N → 0 ≤ j < N → cellZ (tabulate N f) i j = f i j.
Proof.
  intros Hi Hj. unfold cellZ. rewrite cell_tabulate by lia.
  by rewrite !Z2Nat.id by lia.
Qed.

(** Two N x N grids that agree at every index pair are equal. *)
Lemma grid_extZ N g1 g2 :
  is_grid N g1 → is_grid N g2 →
  (∀ i j, 0 ≤ i < N → 0 ≤ j < N → cellZ g1 i j = cellZ g2 i j) →
  g1 = g2.
Proof.
  intros H1 H2 Hcells.
  apply (grid_ext (Z.to_nat N) (Z.to_nat N)); [done | done |].
  intros p q Hp Hq. specialize (Hcells (Z.of_nat p) (Z.of_nat q)).
  unfold cellZ in Hcells. rewrite !Nat2Z.id in Hcells. apply Hcells; lia.
Qed.

Lemma cellZ_next_grid N g i j :
  is_grid N g → 0 ≤ i < N → 0 ≤ j < N →
  cellZ (next_grid g N) i j = branch (cellZ g i j) (Z.quot (nsum g N i j) 255).
Proof.
  intros Hg Hi Hj. unfold cellZ at 1.
  rewrite (cell_next_grid _ _ _ _ _ _ Hg) by lia.
  unfold next_cell, ntotal, cellZ. by rewrite !Z2Nat.id by lia.
Qed.

Lemma tabulate_well_formed N f :
  (∀ i j, 0 ≤ i < N → 0 ≤ j < N → f i j = ON ∨ f i j = OFF) →
  well_formed (tabulate N f).
Proof.
  intros Hf. apply (well_formed_cells _ _ _ (tabulate_is_grid N f)).
  intros p q Hp Hq. rewrite cell_tabulate by done. apply Hf; lia.
Qed.

Lemma well_formed_cellZ_sentinel N g i j :
  is_grid N g → well_formed g → 0 ≤ i < N → 0 ≤ j < N →
  cellZ g i j = ON ∨ cellZ g i j = OFF.
Proof.
  intros Hg Hwf Hi Hj. apply (well_formed_cell _ _ _ _ _ Hg Hwf); lia.
Qed.

(** ** Symmetries of the torus *)

Lemma wrap_pred_shift N x a :
  1 ≤ N → ((x - 1) mod N + a) mod N = ((x + a) mod N - 1) mod N.
Proof.
  intros HN. rewrite Zplus_mod_idemp_l, Zminus_mod_idemp_l. f_equal. lia.
Qed.

Lemma wrap_succ_shift N x a :
  1 ≤ N → ((x + 1) mod N + a) mod N = ((x + a) mod N + 1) mod N.
Proof.
  intros HN. rewrite !Zplus_mod_idemp_l. f_equal. lia.
Qed.

Lemma roll_is_grid N a b g : is_grid N (roll N a b g).
Proof. apply tabulate_is_grid. Qed.

Lemma transpose_is_grid N g : is_grid N (transpose N g).
Proof. apply tabulate_is_grid. Qed.

Lemma nsum_roll N a b g i j :
  1 ≤ N → 0 ≤ i < N → 0 ≤ j < N →
  nsum (roll N a b g) N i j = nsum g N ((i + a) mod N) ((j + b) mod N).
Proof.
  intros HN Hi Hj. pose proof (wrap_in_range HN) as Hw.
  unfold nsum, roll. rewrite !cellZ_tabulate by (done || apply Hw).
  by rewrite !wrap_pred_shift, !wrap_succ_shift by done.
Qed.

Lemma nsum_transpose N g i j :
  1 ≤ N → 0 ≤ i < N → 0 ≤ j < N →
  nsum (transpose N g) N i j = nsum g N j i.
Proof.
  intros HN Hi Hj. pose proof (wrap_in_range HN) as Hw.
  unfold nsum, transpose. rewrite !cellZ_tabulate by (done || apply Hw).
  lia.
Qed.

Lemma next_grid_roll N a b g :
  1 ≤ N → is_grid N g →
  next_grid (roll N a b g) N = roll N a b (next_grid g N).
Proof.
  intros HN Hg.
  pose proof (wrap_in_range HN) as Hw.
  symmetry.
  apply (grid_extZ N);
    [apply roll_is_grid | apply next_grid_is_array, roll_is_grid |].
  intros i j Hi Hj.
  rewrite (cellZ_next_grid _ _ _ _ (roll_is_grid N a b g)) by done.
  rewrite nsum_roll by done. unfold roll at 1 2.
  rewrite !cellZ_tabulate by done.
  by rewrite (cellZ_next_grid _ _ _ _ Hg) by apply Hw.
Qed.

(** X1 — translation around the torus.  For a well-formed N x N grid
    (N >= 1) and any offsets, the grid read at the offsets is well-formed
    too, and [update] of the array read [a] rows down and [b] columns
    right is the result of [update] read at the same offsets: no row and
    no column of the torus is special. *)
Theorem update_commutes_with_roll N a b g frame_num img :
  1 ≤ N → is_grid N g → well_formed g →
  well_formed (roll N a b g) ∧
  ∃ g', update frame_num img g N = Ok (set_data img g', g') ∧
        update frame_num img (roll N a b g) N =
          Ok (set_data img (roll N a b g'), roll N a b g').
Proof.
  intros HN Hg Hwf. pose proof (wrap_in_range HN) as Hw. split.
  - apply tabulate_well_formed. intros i j Hi Hj.
    apply (well_formed_cellZ_sentinel N g); (done || lia || apply Hw).
  - exists (next_grid g N). split; [by apply update_ok|].
    rewrite (update_ok _ _ _ _ (roll_is_grid N a b g)).
    by rewrite next_grid_roll.
Qed.

Lemma update_commutes_with_roll_witness :
  well_formed (roll 5 4 2 blinker5) ∧
  ∃ g', update 0 no_image blinker5 5 = Ok (set_data no_image g', g') ∧
        update 0 no_image (roll 5 4 2 blinker5) 5 =
          Ok (set_data no_image (roll 5 4 2 g'), roll 5 4 2 g').
Proof.
  apply (update_commutes_with_roll 5 4 2 blinker5 0 no_image);
    [lia | by_evaluation | by_evaluation].
Defined.

Lemma next_grid_transpose N g :
  1 ≤ N → is_grid N g →
  next_grid (transpose N g) N = transpose N (next_grid g N).
Proof.
  intros HN Hg.
  symmetry.
  apply (grid_extZ N);
    [apply transpose_is_grid | apply next_grid_is_array, transpose_is_grid |].
  intros i j Hi Hj.
  rewrite (cellZ_next_grid _ _ _ _ (transpose_is_grid N g)) by done.
  rewrite nsum_transpose by done. unfold transpose at 1 2.
  rewrite !cellZ_tabulate by done.
  by rewrite (cellZ_next_grid _ _ _ _ Hg) by done.
Qed.

(** X2 — transposition.  For a well-formed N x N grid (N >= 1), the
    transposed grid is well-formed too, and [update] of the
    transposed array is the transpose of [update] of the array: rows and
    columns play the same part. *)
Theorem update_commutes_with_transpose N g frame_num img :
  1 ≤ N → is_grid N g → well_formed g →
  well_formed (transpose N g) ∧
  ∃ g', update frame_num img g N = Ok (set_data img g', g') ∧
        update frame_num img (transpose N g) N =
          Ok (set_data img (transpose N g'), transpose N g').
Proof.
  intros HN Hg Hwf. pose proof (wrap_in_range HN) as Hw. split.
  - apply tabulate_well_formed. intros i j Hi Hj.
    apply (well_formed_cellZ_sentinel N g); (done || lia || apply Hw).
  - exists (next_grid g N). split; [by apply update_ok|].
    rewrite (update_ok _ _ _ _ (transpose_is_grid N g)).
    by rewrite next_grid_transpose.
Qed.

Lemma update_commutes_with_transpose_witness :
  well_formed (transpose 5 blinker5) ∧
  ∃ g', update 0 no_image blinker5 5 = Ok (set_data no_image g', g') ∧
        update 0 no_image (transpose 5 blinker5) 5 =
          Ok (set_data no_image (transpose 5 g'), transpose 5 g').
Proof.
  apply (update_commutes_with_transpose 5 blinker5 0 no_image);
    [lia | by_evaluation | by_evaluation].
Defined.

(** ** A small pattern on a large torus *)

Lemma elem_of_range N x : x ∈ range N ↔ 0 ≤ x < N.
Proof.
  unfold range. rewrite list_elem_of_fmap. split.
  - intros (k & -> & Hk). apply elem_of_seq in Hk. lia.
  - intros Hx. exists (Z.to_nat x). split; [lia|]. apply elem_of_seq. lia.
Qed.

Lemma elem_of_window m a b : (a, b) ∈ window m ↔ 0 ≤ a < m ∧ 0 ≤ b < m.
Proof.
  unfold window. rewrite list_elem_of_bind. split.
  - intros (i & Hb & Hi). apply list_elem_of_fmap in Hb as (j & [= -> ->] & Hj).
    by rewrite elem_of_range in Hi, Hj.
  - intros [Ha Hb]. exists a. rewrite elem_of_range. split; [|done].
    apply list_elem_of_fmap. exists b. by rewrite elem_of_range.
Qed.

Lemma lit_sentinel live a b : lit live a b = ON ∨ lit live a b = OFF.
Proof. unfold lit. case_bool_decide; [by left | by right]. Qed.

Lemma lit_outside m live a b :
  within m live → a < 1 ∨ m < a ∨ b < 1 ∨ m < b → lit live a b = OFF.
Proof.
  intros Hin Hout. unfold lit. rewrite bool_decide_eq_false_2; [done|].
  intros Hel. apply (proj1 (list.Forall_forall _ _) Hin) in Hel. simpl in Hel. lia.
Qed.

(** An index one step outside [0..N-1] wraps to a row (or column) that
    the pattern does not reach. *)
Lemma wrap_or_dead m N live x :
  within m live → m + 2 ≤ N → 1 ≤ N → -1 ≤ x ≤ N →
  x mod N = x ∨ ((x mod N < 1 ∨ m < x mod N) ∧ (x < 1 ∨ m < x)).
Proof.
  intros Hin HmN HN Hx.
  destruct (decide (0 ≤ x < N)) as [Hsmall|Hwrap].
  - left. by apply Z.mod_small.
  - right. destruct (decide (x = -1)) as [->|Hne].
    + replace (-1 mod N) with (N - 1); [lia|].
      apply (Z.mod_unique_pos _ _ (-1)); lia.
    + replace x with N by lia. rewrite Z.mod_same by lia. lia.
Qed.

Lemma lit_wrap m N live x y :
  within m live → m + 2 ≤ N → 1 ≤ N → -1 ≤ x ≤ N → -1 ≤ y ≤ N →
  lit live (x mod N) (y mod N) = lit live x y.
Proof.
  intros Hin HmN HN Hx Hy.
  destruct (wrap_or_dead m N live x Hin HmN HN Hx) as [->|[Hx1 Hx2]];
    [destruct (wrap_or_dead m N live y Hin HmN HN Hy) as [->|[Hy1 Hy2]]; [done|]|];
    rewrite !(lit_outside m live) by (done || lia); done.
Qed.

Lemma lit_wrap_row m N live x j :
  within m live → m + 2 ≤ N → 1 ≤ N → -1 ≤ x ≤ N → 0 ≤ j < N →
  lit live (x mod N) j = lit live x j.
Proof.
  intros Hin HmN HN Hx Hj.
  rewrite <- (Z.mod_small j N) at 1 by lia. apply (lit_wrap m); (done || lia).
Qed.

Lemma lit_wrap_column m N live i y :
  within m live → m + 2 ≤ N → 1 ≤ N → 0 ≤ i < N → -1 ≤ y ≤ N →
  lit live i (y mod N) = lit live i y.
Proof.
  intros Hin HmN HN Hi Hy.
  rewrite <- (Z.mod_small i N) at 1 by lia. apply (lit_wrap m); (done || lia).
Qed.

Lemma pattern_grid_is_grid N live : is_grid N (pattern_grid N live).
Proof. apply tabulate_is_grid. Qed.

Lemma nsum_pattern m N live i j :
  within m live → m + 2 ≤ N → 1 ≤ N → 0 ≤ i < N → 0 ≤ j < N →
  nsum (pattern_grid N live) N i j = planar_sum live i j.
Proof.
  intros Hin HmN HN Hi Hj. pose proof (wrap_in_range HN) as Hw.
  unfold nsum, pattern_grid, planar_sum.
  rewrite !cellZ_tabulate by (done || apply Hw).
  rewrite !(lit_wrap m N), !(lit_wrap_row m N), !(lit_wrap_column m N)
    by (done || lia).
  done.
Qed.

Lemma planar_next_far m live a b :
  within m live → m + 2 ≤ a ∨ m + 2 ≤ b → planar_next live a b = OFF.
Proof.
  intros Hin Hfar. unfold planar_next, planar_sum.
  rewrite !(lit_outside m live) by (done || lia). reflexivity.
Qed.

Lemma lit_planar_step m live a b :
  within m live → 0 ≤ a → 0 ≤ b →
  lit (planar_step m live) a b = planar_next live a b.
Proof.
  intros Hin Ha Hb. unfold lit at 1, planar_step.
  destruct (decide (a < m + 2 ∧ b < m + 2)) as [Hwin|Hfar].
  - assert (Hs : planar_next live a b = ON ∨ planar_next live a b = OFF)
      by apply branch_sentinel, lit_sentinel.
    case_bool_decide as Hel.
    + apply list_elem_of_filter in Hel as [Hon _]. simpl in Hon. by rewrite Hon.
    + destruct Hs as [Hon|Hoff]; [|by rewrite Hoff].
      exfalso. apply Hel, list_elem_of_filter. split; [done|].
      apply elem_of_window. lia.
  - rewrite (planar_next_far m) by (done || lia).
    rewrite bool_decide_eq_false_2; [done|].
    intros Hel. apply list_elem_of_filter in Hel as [_ Hel].
    apply elem_of_window in Hel. lia.
Qed.

Lemma next_grid_pattern m N live :
  within m live → m + 2 ≤ N → 1 ≤ N →
  next_grid (pattern_grid N live) N = pattern_grid N (planar_step m live).
Proof.
  intros Hin HmN HN.
  apply (grid_extZ N);
    [apply next_grid_is_array, pattern_grid_is_grid | apply pattern_grid_is_grid |].
  intros i j Hi Hj.
  rewrite (cellZ_next_grid _ _ _ _ (pattern_grid_is_grid N live)) by done.
  rewrite (nsum_pattern m) by done. unfold pattern_grid.
  rewrite !cellZ_tabulate by done.
  rewrite (lit_planar_step m) by (done || lia). done.
Qed.

(** X3 — a small pattern does not feel the wrap.  If every ALIVE cell of
    an N x N grid lies in rows and columns 1..m and N >= m + 2, then
    [update] produces the generation that the same rule gives on an
    unbounded plane, where no index is wrapped. *)
Theorem update_of_small_pattern m N live frame_num img :
  within m live → m + 2 ≤ N → 1 ≤ N →
  update frame_num img (pattern_grid N live) N =
    Ok (set_data img (pattern_grid N (planar_step m live)),
        pattern_grid N (planar_step m live)).
Proof.
  intros Hin HmN HN.
  rewrite (update_ok _ _ _ _ (pattern_grid_is_grid N live)).
  by rewrite (next_grid_pattern m).
Qed.

Lemma update_of_small_pattern_witness :
  update 0 no_image (pattern_grid 7 (glider_at 1 1)) 7 =
    Ok (set_data no_image (pattern_grid 7 (planar_step 4 (glider_at 1 1))),
        pattern_grid 7 (planar_step 4 (glider_at 1 1))).
Proof.
  apply (update_of_small_pattern 4 7 (glider_at 1 1) 0 no_image);
    [by_evaluation | lia | lia].
Defined.

(** ** The glider on the torus *)

Lemma zeros_is_grid N : is_grid N (zeros N).
Proof.
  split.
  - unfold zeros. by rewrite length_replicate.
  - unfold zeros. apply Forall_replicate. by rewrite length_replicate.
Qed.

Lemma zeros_all_dead N : all_dead (zeros N).
Proof. unfold zeros. apply Forall_replicate, Forall_replicate. done. Qed.

Lemma pair_eq_iff (a b x y : Z) : (a, b) = (x, y) ↔ a = x ∧ b = y.
Proof. split; [by intros [= -> ->] | by intros [-> ->]]. Qed.

Lemma lit_glider_at r c a b :
  lit (glider_at r c) a b = lit (glider_at 1 1) (a - r + 1) (b - c + 1).
Proof.
  assert (Hiff : (a, b) ∈ glider_at r c ↔
                 (a - r + 1, b - c + 1) ∈ glider_at 1 1).
  { unfold glider_at. rewrite !elem_of_cons, !elem_of_nil, !pair_eq_iff. lia. }
  unfold lit. by rewrite (bool_decide_ext _ _ Hiff).
Qed.

Lemma stamp_zeros N r c :
  0 ≤ r → 0 ≤ c →
  stamp (zeros N) (Z.to_nat r) (Z.to_nat c) = pattern_grid N (glider_at r c).
Proof.
  intros Hr Hc.
  apply (grid_extZ N);
    [apply stamp_is_array, zeros_is_grid | apply pattern_grid_is_grid |].
  intros i j Hi Hj. unfold pattern_grid. rewrite cellZ_tabulate by done.
  unfold cellZ.
  rewrite (cell_stamp _ _ _ _ _ _ _ (zeros_is_grid N)) by lia.
  rewrite (all_dead_cell _ _ _ _ _ (zeros_is_grid N) (zeros_all_dead N)) by lia.
  rewrite lit_glider_at.
  case_bool_decide as Hin.
  - assert (Hi' : i = r ∨ i = r + 1 ∨ i = r + 2) by lia.
    assert (Hj' : j = c ∨ j = c + 1 ∨ j = c + 2) by lia.
    destruct Hi' as [->|[->| ->]]; destruct Hj' as [->|[->| ->]];
      repeat match goal with
             | |- context [(Z.to_nat ?x - Z.to_nat ?y)%nat] =>
                 let k := fresh "k" in
                 let Hk := fresh "Hk" in
                 remember (Z.to_nat x - Z.to_nat y)%nat as k eqn:Hk;
                 first [ replace k with 0%nat by lia
                       | replace k with 1%nat by lia
                       | replace k with 2%nat by lia ];
                 clear Hk
             | |- context [lit _ (?x - ?y + 1) _] =>
                 first [ replace (x - y + 1) with 1 by lia
                       | replace (x - y + 1) with 2 by lia
                       | replace (x - y + 1) with 3 by lia ]
             | |- context [lit _ _ (?x - ?y + 1)] =>
                 first [ replace (x - y + 1) with 1 by lia
                       | replace (x - y + 1) with 2 by lia
                       | replace (x - y + 1) with 3 by lia ]
             end; reflexivity.
  - symmetry. apply (lit_outside 3); [by_evaluation | lia].
Qed.

Lemma animate_cons frame_num rest img g N :
  animate (frame_num :: rest) img g N =
    update frame_num img g N ≫= λ s, animate rest s.1 s.2 N.
Proof. reflexivity. Qed.

Lemma animate_pattern m N live frame_num rest img :
  within m live → m + 2 ≤ N → 1 ≤ N →
  animate (frame_num :: rest) img (pattern_grid N live) N =
    animate rest (set_data img (pattern_grid N (planar_step m live)))
      (pattern_grid N (planar_step m live)) N.
Proof.
  intros Hin HmN HN.
  rewrite animate_cons, (update_ok _ _ _ _ (pattern_grid_is_grid N live)), bind_Ok.
  simpl. by rewrite (next_grid_pattern m).
Qed.

(** X4 — the glider moves one cell diagonally every four generations.
    On an all-DEAD N x N grid with N >= 6, stamping the glider at (1, 1)
    and calling [update] four times gives exactly the grid obtained by
    stamping the glider at (2, 2). *)
Theorem glider_moves_diagonally N img f1 f2 f3 f4 :
  6 ≤ N →
  ∃ g0 g4,
    add_glider 1 1 (zeros N) = Ok g0 ∧
    add_glider 2 2 (zeros N) = Ok g4 ∧
    animate [f1; f2; f3; f4] img g0 N = Ok (set_data img g4, g4).
Proof.
  intros HN.
  exists (pattern_grid N (glider_at 1 1)), (pattern_grid N (glider_at 2 2)).
  pose proof (zeros_is_grid N) as Hz.
  split; [|split].
  - rewrite (add_glider_inside _ _ _ 1 1 Hz) by lia.
    by rewrite <- (stamp_zeros N 1 1).
  - rewrite (add_glider_inside _ _ _ 2 2 Hz) by lia.
    by rewrite <- (stamp_zeros N 2 2).
  - rewrite (animate_pattern 4) by (by_evaluation || lia).
    rewrite (animate_pattern 4) by (by_evaluation || lia).
    rewrite (animate_pattern 4) by (by_evaluation || lia).
    rewrite (animate_pattern 4) by (by_evaluation || lia).
    reflexivity.
Qed.

Lemma glider_moves_diagonally_witness :
  ∃ g0 g4,
    add_glider 1 1 (zeros 9) = Ok g0 ∧
    add_glider 2 2 (zeros 9) = Ok g4 ∧
    animate [0; 1; 2; 3] no_image g0 9 = Ok (set_data no_image g4, g4).
Proof. apply (glider_moves_diagonally 9 no_image 0 1 2 3). lia. Defined.

(** X5 — the animation never fails.  Starting from a well-formed N x N
    grid, any sequence of frames runs to the end without an exception;
    the grid is then still a well-formed N x N grid, and after at least
    one frame the image shows exactly the grid. *)
Theorem animate_is_safe N g frames img :
  is_grid N g → well_formed g →
  ∃ img' g', animate frames img g N = Ok (img', g') ∧
             is_grid N g' ∧ well_formed g' ∧
             (frames ≠ [] → img_data img' = g').
Proof.
  revert img g. induction frames as [|frame_num rest IH]; intros img g Hg Hwf.
  - exists img, g. split; [done|]. split; [done|]. split; done.
  - rewrite animate_cons, (update_ok _ _ _ _ Hg), bind_Ok. simpl.
    destruct (IH (set_data img (next_grid g N)) (next_grid g N))
      as (img' & g' & Hrun & Hg' & Hwf' & Himg);
      [by apply next_grid_is_array | by apply next_grid_well_formed |].
    exists img', g'. split; [done|]. split; [done|]. split; [done|].
    intros _. destruct rest as [|f rest]; [|by apply Himg].
    simpl in Hrun. by injection Hrun as <- <-.
Qed.

Lemma animate_is_safe_witness :
  ∃ img' g', animate [0; 1; 2] no_image blinker5 5 = Ok (img', g') ∧
             is_grid 5 g' ∧ well_formed g' ∧
             ([0; 1; 2] ≠ [] → img_data img' = g').
Proof.
  apply (animate_is_safe 5 blinker5 [0; 1; 2] no_image); by_evaluation.
Defined.

(** ** The start of [main] *)

Lemma chunks_replicate r c (v : Z) :
  Np.chunks r c (replicate (r * c) v) = replicate r (replicate c v).
Proof.
  induction r as [|r IH]; [done|]. simpl.
  rewrite take_replicate_add, drop_replicate_add. by rewrite IH.
Qed.

Lemma zeros_flat alloc N :
  alloc (N * N) = None →
  Np.zeros alloc (N * N) = Ok (replicate (Z.to_nat (N * N)) 0).
Proof.
  intros Hroom. unfold Np.zeros. rewrite Hroom.
  destruct (Z.ltb_spec (N * N) 0) as [Hneg|_]; [nia | done].
Qed.

Lemma zeros_reshape N :
  0 ≤ N → Np.reshape (replicate (Z.to_nat (N * N)) 0) N N = Ok (zeros N).
Proof.
  intros HN. unfold Np.reshape.
  destruct (Z.ltb_spec N 0) as [Hneg|_]; [lia|]. simpl andb. cbv iota.
  rewrite length_replicate, Z2Nat.id, Z.eqb_refl by nia.
  replace (Z.to_nat (N * N)) with (Z.to_nat N * Z.to_nat N)%nat by nia.
  by rewrite chunks_replicate.
Qed.

Lemma grid_size_parsed a :
  parses a →
  ∃ N, grid_size a = Ok N ∧ 9 ≤ N ∧
       (a = None → N = 100) ∧
       (∀ n, a = Some (Ok n) → 9 ≤ n → N = n) ∧
       (∀ n, a = Some (Ok n) → n ≤ 8 → N = 100).
Proof.
  intros Hp. destruct a as [[n|e]|]; [| done |].
  - unfold grid_size. rewrite bind_Ok.
    destruct (Z.gtb_spec n 8).
    + exists n. split; [done|]. split; [lia|]. split; [done|].
      split; intros n' [= <-] ?; [done | lia].
    + exists 100. split; [done|]. split; [lia|]. split; [done|].
      split; intros n' [= <-] ?; [lia | done].
  - exists 100. split; [done|]. split; [lia|]. split; [done|].
    split; intros n' [=].
Qed.

(** X6 — the start of [main].  When the numeric options that are given
    are numbers and numpy can allocate the N * N cells of the grid size N
    that [main] settles on, the set-up returns: the grid size is the
    requested one if it is at least 9 and 100 otherwise (so it is never
    below 9), and the seeded grid is a well-formed N x N grid; with
    [--glider] it is the all-DEAD grid with the glider stamped at (1, 1),
    a stamp that cannot fail because N >= 9. *)
Theorem main_setup_returns alloc rng args :
  parses (arg_N args) → parses (arg_interval args) →
  (∀ N, grid_size (arg_N args) = Ok N → alloc (N * N) = None) →
  ∃ N interval g,
    main_setup alloc rng args = Ok (N, interval, g) ∧
    9 ≤ N ∧
    (arg_N args = None → N = 100) ∧
    (∀ n, arg_N args = Some (Ok n) → 9 ≤ n → N = n) ∧
    (∀ n, arg_N args = Some (Ok n) → n ≤ 8 → N = 100) ∧
    is_grid N g ∧ well_formed g ∧
    (arg_glider args = true → add_glider 1 1 (zeros N) = Ok g).
Proof.
  intros HpN Hpi Hroom.
  destruct (grid_size_parsed _ HpN) as (N & HN & Hge & Hnone & Hbig & Hsmall).
  specialize (Hroom N HN).
  assert (Hiv : ∃ interval, interval_of (arg_interval args) = Ok interval).
  { destruct (arg_interval args) as [[iv|e]|]; [by exists iv | done | by exists 50]. }
  destruct Hiv as [interval Hiv].
  unfold main_setup. rewrite HN, bind_Ok, Hiv, bind_Ok.
  destruct (arg_glider args).
  - rewrite zeros_flat, bind_Ok, zeros_reshape, bind_Ok by (done || lia).
    rewrite (add_glider_inside _ _ _ 1 1 (zeros_is_grid N)) by lia.
    rewrite bind_Ok.
    exists N, interval, (stamp (zeros N) (Z.to_nat 1) (Z.to_nat 1)).
    split; [done|]. split; [done|]. split; [done|]. split; [done|].
    split; [done|]. split; [apply stamp_is_array, zeros_is_grid|].
    split; [apply stamp_well_formed, all_dead_well_formed, zeros_all_dead|].
    intros _. apply (add_glider_inside _ _ _ 1 1 (zeros_is_grid N)); lia.
  - destruct (random_grid_nonneg alloc rng N) as (g & -> & Hg & Hwf); [lia | done |].
    rewrite bind_Ok. exists N, interval, g.
    split; [done|]. split; [done|]. split; [done|]. split; [done|].
    split; [done|]. split; [done|]. split; [done|]. done.
Qed.

Lemma main_setup_returns_witness :
  ∃ N interval g,
    main_setup roomy (λ _, false)
      {| arg_N := Some (Ok 5); arg_interval := None; arg_glider := true |}
      = Ok (N, interval, g) ∧
    9 ≤ N ∧
    (Some (Ok 5) = None → N = 100) ∧
    (∀ n, Some (Ok 5) = Some (Ok n) → 9 ≤ n → N = n) ∧
    (∀ n, Some (Ok 5) = Some (Ok n) → n ≤ 8 → N = 100) ∧
    is_grid N g ∧ well_formed g ∧
    (true = true → add_glider 1 1 (zeros N) = Ok g).
Proof.
  apply (main_setup_returns roomy (λ _, false)
           {| arg_N := Some (Ok 5); arg_interval := None; arg_glider := true |});
    [exact I | exact I | intros N _; reflexivity].
Defined.

(** ** Random seeding, cell by cell *)

Lemma cell_chunks r c flat p q :
  (p < r)%nat → (q < c)%nat →
  cell (Np.chunks r c flat) p q = default 0 (flat !! (p * c + q)%nat).
Proof.
  revert flat p. induction r as [|r IH]; intros flat p Hp Hq; [lia|].
  destruct p as [|p]; simpl.
  - unfold cell. simpl. by rewrite lookup_take_lt.
  - unfold cell in *. simpl. rewrite IH by lia. rewrite lookup_drop.
    f_equal. f_equal. lia.
Qed.

(** X7 — one draw per cell, in row-major order.  For every cell (i, j)
    of an N x N grid that [random_grid] returns, the cell is decided by
    draw number i * N + j of the generator and by no other draw: ALIVE
    when that draw selects the first value, DEAD otherwise; and
    [random_grid] does return a grid when numpy can allocate the N * N
    samples. *)
Theorem random_grid_cell_is_its_draw alloc rng N i j :
  0 ≤ i < N → 0 ≤ j < N →
  (∀ g, random_grid alloc rng N = Ok g →
        Np.getitem g i j = Ok (if rng (Z.to_nat (i * N + j)) then ON else OFF)) ∧
  (alloc (N * N) = None → ∃ g, random_grid alloc rng N = Ok g).
Proof.
  intros Hi Hj. split.
  - intros g Hrun.
    destruct (alloc (N * N)) as [e|] eqn:Hroom.
    { rewrite (random_grid_no_room alloc rng N e Hroom) in Hrun. discriminate Hrun. }
    destruct (random_grid_nonneg alloc rng N) as (g0 & Hrun0 & Hg & _); [lia | done |].
    assert (g0 = g) as -> by congruence. clear Hrun0.
    rewrite (getitem_ok Hg) by lia. f_equal.
    revert Hrun. unfold random_grid, Np.choice.
    destruct (Z.ltb_spec (N * N) 0) as [Hneg|_]; [nia|].
    change (Np.valid_probabilities vals [2 # 10; 8 # 10]%Q) with true.
    simpl negb. cbv iota. rewrite Hroom, bind_Ok. unfold Np.reshape.
    destruct (Z.ltb_spec N 0) as [Hneg|_]; [lia|]. simpl andb. cbv iota.
    rewrite length_fmap, length_seq, Z2Nat.id, Z.eqb_refl by nia.
    intros [= <-]. unfold cellZ. rewrite cell_chunks by lia.
    rewrite list_lookup_fmap, lookup_seq_lt by nia. simpl.
    replace (Z.to_nat i * Z.to_nat N + Z.to_nat j)%nat with (Z.to_nat (i * N + j)) by nia.
    by destruct (rng _).
  - intros Hroom.
    destruct (random_grid_nonneg alloc rng N) as (g & Hrun & _); [lia | done |].
    by exists g.
Qed.

Lemma random_grid_cell_is_its_draw_witness :
  (∀ g, random_grid roomy Nat.even 3 = Ok g →
        Np.getitem g 1 2 = Ok (if Nat.even (Z.to_nat (1 * 3 + 2)) then ON else OFF)) ∧
  (roomy (3 * 3) = None → ∃ g, random_grid roomy Nat.even 3 = Ok g).
Proof.
  apply (random_grid_cell_is_its_draw roomy Nat.even 3 1 2); lia.
Defined.

(** ** The anchors [add_glider] accepts *)

Lemma slice_extent n k :
  (Np.slice_bound n (k + 3) - Np.slice_bound n k = 3)%nat ↔ valid_anchor n k.
Proof.
  unfold Np.slice_bound, valid_anchor.
  destruct (Z.ltb_spec k 0), (Z.ltb_spec (k + 3) 0); lia.
Qed.

Lemma slice_start n k : valid_anchor n k → Np.slice_bound n k = anchor_start n k.
Proof.
  unfold Np.slice_bound, valid_anchor, anchor_start.
  destruct (Z.ltb_spec k 0); lia.
Qed.

Lemma valid_anchor_start n k : valid_anchor n k → valid_anchor n (Z.of_nat (anchor_start n k)).
Proof.
  unfold valid_anchor, anchor_start. destruct (Z.ltb_spec k 0); lia.
Qed.

Lemma anchor_start_start n k :
  valid_anchor n k → anchor_start n (Z.of_nat (anchor_start n k)) = anchor_start n k.
Proof.
  unfold valid_anchor, anchor_start. intros Hk.
  destruct (Z.ltb_spec k 0), (Z.ltb_spec (Z.of_nat (Z.to_nat (k + Z.of_nat n))) 0),
    (Z.ltb_spec (Z.of_nat (Z.to_nat k)) 0); lia.
Qed.

Lemma add_glider_cases r c g i j :
  is_array r c g →
  add_glider i j g =
    if bool_decide (valid_anchor r i ∧ valid_anchor c j)
    then Ok (stamp g (anchor_start r i) (anchor_start c j))
    else Raise ValueError.
Proof.
  intros Hg. unfold add_glider. rewrite setslice_glider. unfold Np.nrows.
  pose proof Hg as [Hlen _]. rewrite Hlen.
  destruct (decide (valid_anchor r i)) as [Hi|Hi].
  - assert (Hr : (0 < r)%nat) by (unfold valid_anchor in Hi; lia).
    rewrite (is_array_ncols Hg Hr).
    destruct (decide (valid_anchor c j)) as [Hj|Hj].
    + rewrite !bool_decide_eq_true_2 by (done || by rewrite !slice_extent).
      by rewrite !slice_start.
    + rewrite !bool_decide_eq_false_2; [done | tauto |].
      rewrite !slice_extent. tauto.
  - rewrite !bool_decide_eq_false_2; [done | tauto |].
    rewrite slice_extent. tauto.
Qed.

Lemma add_glider_run_cases r c g i j :
  is_array r c g →
  add_glider_run i j g =
    if bool_decide (valid_anchor r i ∧ valid_anchor c j)
    then (stamp g (anchor_start r i) (anchor_start c j), Ok tt)
    else (g, Raise ValueError).
Proof.
  intros Hg. unfold add_glider_run. rewrite setslice_run_glider. unfold Np.nrows.
  pose proof Hg as [Hlen _]. rewrite Hlen.
  destruct (decide (valid_anchor r i)) as [Hi|Hi].
  - assert (Hr : (0 < r)%nat) by (unfold valid_anchor in Hi; lia).
    rewrite (is_array_ncols Hg Hr).
    destruct (decide (valid_anchor c j)) as [Hj|Hj].
    + rewrite !bool_decide_eq_true_2 by (done || by rewrite !slice_extent).
      by rewrite !slice_start.
    + rewrite !bool_decide_eq_false_2; [done | tauto |].
      rewrite !slice_extent. tauto.
  - rewrite !bool_decide_eq_false_2; [done | tauto |].
    rewrite slice_extent. tauto.
Qed.

(** C6, as the program has it.  For an array of any shape and an anchor
    whose 3 x 3 region would exceed the array, [add_glider] raises
    (numpy's ValueError, from the shape check of the slice assignment;
    the program has no OutOfBounds error of its own) and the array holds
    after the call what it held before: nothing is stamped.  The one
    exception is an anchor each of whose coordinates k is either in range
    (0 <= k <= n - 3) or satisfies -n <= k <= -4 on its axis of length n,
    which numpy reads as n + k.  Stamping a 5 x 5 grid at (3, 3) fails
    this way. *)
Theorem add_glider_out_of_bounds_fails r c g i j :
  is_array r c g →
  ¬ (0 ≤ i ∧ i + 3 ≤ Z.of_nat r ∧ 0 ≤ j ∧ j + 3 ≤ Z.of_nat c) →
  ¬ (valid_anchor r i ∧ valid_anchor c j) →
  add_glider i j g = Raise ValueError ∧
  add_glider_run i j g = (g, Raise ValueError) ∧
  add_glider_run 3 3 (zeros 5) = (zeros 5, Raise ValueError).
Proof.
  intros Hg _ Hinvalid.
  rewrite (add_glider_cases r c g i j Hg), (add_glider_run_cases r c g i j Hg).
  rewrite !bool_decide_eq_false_2 by done.
  split; [done|]. split; reflexivity.
Qed.

Lemma add_glider_out_of_bounds_fails_witness :
  add_glider (-2) 1 blinker5 = Raise ValueError ∧
  add_glider_run (-2) 1 blinker5 = (blinker5, Raise ValueError) ∧
  add_glider_run 3 3 (zeros 5) = (zeros 5, Raise ValueError).
Proof.
  apply (add_glider_out_of_bounds_fails 5 5 blinker5 (-2) 1);
    [by_evaluation | simpl; lia | ].
  apply (@bool_decide_eq_false_1 _ _). vm_compute. reflexivity.
Defined.

(** X8 — the exact domain of [add_glider].  On an r x c array the call
    succeeds exactly when each anchor coordinate k selects three whole
    positions of its axis of length n: either 0 <= k <= n - 3, or
    -n <= k <= -4, which numpy reads as n + k; in every other case
    (also for k = -3, -2, -1) it raises ValueError.  A successful call
    keeps the shape and does what the call at the non-negative anchor
    does. *)
Theorem add_glider_domain r c g i j :
  is_array r c g →
  (add_glider i j g = Raise ValueError ↔ ¬ (valid_anchor r i ∧ valid_anchor c j)) ∧
  (valid_anchor r i ∧ valid_anchor c j →
     ∃ g', add_glider i j g = Ok g' ∧ is_array r c g' ∧
           add_glider (Z.of_nat (anchor_start r i)) (Z.of_nat (anchor_start c j)) g
             = Ok g').
Proof.
  intros Hg. rewrite !(add_glider_cases r c g) by done. split.
  - case_bool_decide; split; intros; (done || tauto).
  - intros [Hi Hj].
    exists (stamp g (anchor_start r i) (anchor_start c j)).
    rewrite !bool_decide_eq_true_2
      by (done || split; by apply valid_anchor_start).
    split; [done|]. split; [by apply stamp_is_array|].
    by rewrite !anchor_start_start.
Qed.

Lemma add_glider_domain_witness :
  (add_glider (-4) (-5) (zeros 8) = Raise ValueError ↔
     ¬ (valid_anchor 8 (-4) ∧ valid_anchor 8 (-5))) ∧
  (valid_anchor 8 (-4) ∧ valid_anchor 8 (-5) →
     ∃ g', add_glider (-4) (-5) (zeros 8) = Ok g' ∧ is_array 8 8 g' ∧
           add_glider (Z.of_nat (anchor_start 8 (-4))) (Z.of_nat (anchor_start 8 (-5)))
             (zeros 8) = Ok g').
Proof.
  apply (add_glider_domain 8 8 (zeros 8) (-4) (-5)). by_evaluation.
Defined.

Lemma imap_idempotent {A : Type} (F : nat → A → A) (l : list A) :
  (∀ p x, F p (F p x) = F p x) → imap F (imap F l) = imap F l.
Proof.
  intros HF. apply list_eq. intros p. rewrite !list_lookup_imap.
  destruct (l !! p); simpl; [by rewrite HF | done].
Qed.

Lemma stamp_stamp g r0 c0 : stamp (stamp g r0 c0) r0 c0 = stamp g r0 c0.
Proof.
  unfold stamp. apply imap_idempotent. intros p row.
  apply imap_idempotent. intros q v. by case_bool_decide.
Qed.

Lemma nrows_stamp g r0 c0 : Np.nrows (stamp g r0 c0) = Np.nrows g.
Proof. unfold Np.nrows, stamp. by rewrite length_imap. Qed.

Lemma ncols_stamp g r0 c0 : Np.ncols (stamp g r0 c0) = Np.ncols g.
Proof. destruct g as [|row g]; [done|]. simpl. by rewrite length_imap. Qed.

(** X9 — stamping twice is stamping once.  If [add_glider] succeeds at
    an anchor, calling it again at the same anchor succeeds and changes
    nothing, whatever the array held before. *)
Theorem add_glider_idempotent i j g g' :
  add_glider i j g = Ok g' → add_glider i j g' = Ok g'.
Proof.
  unfold add_glider. rewrite !setslice_glider.
  case_bool_decide as Hext; [|done]. intros [= <-].
  rewrite !nrows_stamp, !ncols_stamp.
  rewrite bool_decide_eq_true_2 by done. by rewrite stamp_stamp.
Qed.

Lemma add_glider_idempotent_witness :
  add_glider (-4) 1 (stamp blinker5 1 1) = Ok (stamp blinker5 1 1).
Proof.
  apply (add_glider_idempotent (-4) 1 blinker5 (stamp blinker5 1 1)).
  reflexivity.
Defined.

(** ** An array smaller than N *)

Lemma index_out_of_range n k : Z.of_nat n ≤ k → Np.index n k = Raise IndexError.
Proof.
  intros Hk. unfold Np.index.
  destruct (Z.leb_spec 0 k), (Z.ltb_spec k (Z.of_nat n)),
    (Z.leb_spec (- Z.of_nat n) k), (Z.ltb_spec k 0); simpl; (done || lia).
Qed.

Lemma index_in_range n k : 0 ≤ k < Z.of_nat n → Np.index n k = Ok (Z.to_nat k).
Proof.
  intros Hk. unfold Np.index.
  destruct (Z.leb_spec 0 k), (Z.ltb_spec k (Z.of_nat n)); simpl; (done || lia).
Qed.

Lemma getitem_row_out_of_range g i j :
  Z.of_nat (Np.nrows g) ≤ i → Np.getitem g i j = Raise IndexError.
Proof.
  intros Hi. unfold Np.getitem. rewrite (index_out_of_range _ _ Hi). reflexivity.
Qed.

Lemma getitem_column_out_of_range g i j :
  0 ≤ i < Z.of_nat (Np.nrows g) → Z.of_nat (Np.ncols g) ≤ j →
  Np.getitem g i j = Raise IndexError.
Proof.
  intros Hi Hj. unfold Np.getitem.
  rewrite (index_in_range _ _ Hi), bind_Ok.
  rewrite (index_out_of_range _ _ Hj). reflexivity.
Qed.

Lemma range_cons N : 1 ≤ N → ∃ rest, range N = 0 :: rest.
Proof.
  intros HN. unfold range.
  destruct (Z.to_nat N) as [|n] eqn:Hn; [lia|]. simpl. eauto.
Qed.

Lemma wrap_minus_one N : 1 ≤ N → (0 - 1) mod N = N - 1.
Proof. intros HN. symmetry. apply (Z.mod_unique_pos _ _ (-1)); lia. Qed.

Lemma neighbour_sum_too_small r c g N :
  is_array r c g → 1 ≤ N → Z.of_nat r < N ∨ Z.of_nat c < N →
  neighbour_sum g N 0 0 = Raise IndexError.
Proof.
  intros Hg HN Hsmall. unfold neighbour_sum. rewrite wrap_minus_one by done.
  destruct (decide (r = 0%nat)) as [->|Hr].
  { rewrite (getitem_row_out_of_range g 0 (N - 1)); [reflexivity|].
    unfold Np.nrows. destruct Hg as [-> _]. lia. }
  assert (Hrows : Np.nrows g = r) by by destruct Hg.
  assert (Hcols : Np.ncols g = c) by (apply (is_array_ncols Hg); lia).
  destruct (decide (Z.of_nat c < N)) as [Hc|Hc].
  { rewrite (getitem_column_out_of_range g 0 (N - 1)); [reflexivity | lia | lia]. }
  assert (Hr' : Z.of_nat r < N) by lia.
  pose proof (Z.mod_pos_bound (0 + 1) N) as Hw.
  rewrite (getitem_ok Hg 0 (N - 1)), bind_Ok by lia.
  rewrite (getitem_ok Hg 0 ((0 + 1) mod N)), bind_Ok by lia.
  rewrite (getitem_row_out_of_range g (N - 1) 0); [reflexivity | lia].
Qed.

(** X10 — [update] needs an array of at least N x N.  For N >= 1, if the
    array has fewer than N rows or fewer than N columns (an empty array
    included), the very first neighbour read is out of bounds and [update]
    raises IndexError, before anything is written. *)
Theorem update_raises_on_small_array r c g N frame_num img :
  is_array r c g → 1 ≤ N → Z.of_nat r < N ∨ Z.of_nat c < N →
  update frame_num img g N = Raise IndexError.
Proof.
  intros Hg HN Hsmall. unfold update.
  destruct (range_cons N HN) as [rest ->].
  rewrite !for_cons. unfold update_cell, total.
  rewrite (neighbour_sum_too_small r c g N) by done. reflexivity.
Qed.

Lemma update_raises_on_small_array_witness :
  update 0 no_image blinker5 6 = Raise IndexError.
Proof.
  apply (update_raises_on_small_array 5 5 blinker5 6 0 no_image);
    [by_evaluation | lia | simpl; lia].
Defined.

(** ** An array larger than N *)

Section block.
Context {r c : nat} {N : Z} {g : Grid}.
Context (HN : 1 ≤ N) (Hg : is_array r c g).
Context (Hr : N ≤ Z.of_nat r) (Hc : N ≤ Z.of_nat c).

Lemma getitem_block i j :
  0 ≤ i < N → 0 ≤ j < N → Np.getitem g i j = Ok (cellZ g i j).
Proof. intros Hi Hj. apply (getitem_ok Hg); lia. Qed.

Lemma total_block i j :
  0 ≤ i < N → 0 ≤ j < N → total g N i j = Ok (ntotal g N i j).
Proof.
  intros Hi Hj. unfold total, neighbour_sum.
  rewrite !getitem_block by (done || apply (wrap_in_range HN)).
  done.
Qed.

Lemma update_cell_block ng (p q : nat) :
  is_array r c ng → Z.of_nat p < N → Z.of_nat q < N →
  ∃ ng', update_cell g N (Z.of_nat p) (Z.of_nat q) ng = Ok ng' ∧
         is_array r c ng' ∧
         (∀ p' q', (p', q') ≠ (p, q) → cell ng' p' q' = cell ng p' q') ∧
         (cell ng p q = cell g p q → cell ng' p q = next_cell g N p q).
Proof.
  intros Hng Hp Hq. unfold update_cell.
  rewrite total_block, getitem_block by lia. simpl.
  unfold next_cell, branch, cellZ. rewrite !Nat2Z.id.
  set (t := ntotal g N (Z.of_nat p) (Z.of_nat q)).
  assert (Hset : ∀ v, ∃ ng',
    Np.setitem ng (Z.of_nat p) (Z.of_nat q) v = Ok ng' ∧ is_array r c ng' ∧
    (∀ p' q', (p', q') ≠ (p, q) → cell ng' p' q' = cell ng p' q') ∧
    (cell ng p q = cell g p q → cell ng' p q = v)).
  { intros v. eexists. split; [apply (setitem_ok Hng); lia|].
    rewrite !Nat2Z.id. split; [apply (set_cell_is_array Hng)|]. split.
    - intros p' q' Hne. rewrite (cell_set_cell Hng) by lia.
      rewrite bool_decide_eq_false_2; [done|]. intros [-> ->]. done.
    - intros _. rewrite (cell_set_cell Hng) by lia.
      by rewrite bool_decide_eq_true_2. }
  destruct (cell g p q =? ON).
  - destruct ((t <? 2) || (t >? 3)); [apply Hset|].
    exists ng. split; [done|]. split; [done|]. split; done.
  - destruct (t =? 3); [apply Hset|].
    exists ng. split; [done|]. split; [done|]. split; done.
Qed.

Lemma block_cell i k ng :
  (i < Z.to_nat N)%nat → (k < Z.to_nat N)%nat →
  block_inv g r c N i k ng →
  ∃ ng', update_cell g N (Z.of_nat i) (Z.of_nat k) ng = Ok ng' ∧
         block_inv g r c N i (S k) ng'.
Proof.
  intros Hi Hk [Hng Hcells].
  destruct (update_cell_block ng i k Hng) as (ng' & Hrun & Hng' & Hframe & Hnew);
    [lia | lia |].
  exists ng'. split; [done|]. split; [done|].
  intros p q Hp Hq.
  destruct (decide ((p, q) = (i, k))) as [[= -> ->]|Hne].
  - rewrite swept_next_cell.
    destruct (Nat.ltb_spec k (Z.to_nat N)); [|lia]. simpl.
    apply Hnew. rewrite Hcells by done. by rewrite swept_here, andb_false_r.
  - rewrite Hframe, swept_other by done. by apply Hcells.
Qed.

Lemma block_row i ng :
  (i < Z.to_nat N)%nat →
  block_inv g r c N i 0 ng →
  ∃ ng', for_ (range N) (λ j ng0, update_cell g N (Z.of_nat i) j ng0) ng = Ok ng' ∧
         block_inv g r c N (S i) 0 ng'.
Proof.
  intros Hi Hinv.
  destruct (for_range_inv (block_inv g r c N i)
              (λ j ng0, update_cell g N (Z.of_nat i) j ng0) (Z.to_nat N) ng Hinv)
    as (ng' & Hrun & [Hng' Hcells]).
  { intros k ng0 Hk. by apply block_cell. }
  rewrite Z2Nat.id in Hrun by lia.
  exists ng'. split; [done|]. split; [done|].
  intros p q Hp Hq. rewrite Hcells by done.
  destruct (Nat.ltb_spec q (Z.to_nat N)); [|done]. simpl.
  by rewrite (swept_next_row (Z.to_nat N)).
Qed.

Lemma block_all :
  ∃ ng', for_ (range N) (λ i ng,
           for_ (range N) (λ j ng0, update_cell g N i j ng0) ng) g = Ok ng' ∧
         block_inv g r c N (Z.to_nat N) 0 ng'.
Proof.
  destruct (for_range_inv (λ i, block_inv g r c N i 0)
              (λ i ng, for_ (range N) (λ j ng0, update_cell g N i j ng0) ng)
              (Z.to_nat N) g)
    as (ng' & Hrun & Hinv).
  - split; [done|]. intros p q _ _. unfold swept.
    destruct (Nat.ltb_spec p 0), (Nat.ltb_spec q 0); try lia.
    by rewrite !andb_false_r.
  - intros i ng Hi. by apply block_row.
  - rewrite Z2Nat.id in Hrun by lia. by exists ng'.
Qed.

End block.

(** X11 — [update] on an array larger than N x N.  If a well-formed
    array has at least N rows and N columns, [update] returns a
    well-formed array of the same shape; inside the top left N x N block every cell gets the value the
    rule gives for its current value and the total the program computes
    (the block is a torus of its own: the wrap is modulo N, not modulo the
    array's extent); every cell outside the block keeps its value. *)
Theorem update_touches_only_the_block r c g N frame_num img :
  is_array r c g → well_formed g → N ≤ Z.of_nat r → N ≤ Z.of_nat c →
  ∃ g', update frame_num img g N = Ok (set_data img g', g') ∧
        is_array r c g' ∧ well_formed g' ∧
        (∀ i j, 0 ≤ i < N → 0 ≤ j < N →
           ∃ cur t, Np.getitem g i j = Ok cur ∧ total g N i j = Ok t ∧
                    Np.getitem g' i j = Ok (branch cur t)) ∧
        (∀ i j, 0 ≤ i < Z.of_nat r → 0 ≤ j < Z.of_nat c → N ≤ i ∨ N ≤ j →
           Np.getitem g' i j = Np.getitem g i j).
Proof.
  intros Hg Hwf Hr Hc. unfold update.
  destruct (Z.le_gt_cases N 0) as [HN|HN].
  { rewrite range_nonpos by done. exists g. split; [done|]. split; [done|].
    split; [done|]. split; [intros; lia | done]. }
  assert (HN' : 1 ≤ N) by lia.
  destruct (block_all HN' Hg Hr Hc) as (g' & -> & Hg' & Hcells).
  exists g'. rewrite bind_Ok. split; [done|]. split; [done|]. split; [|split].
  - apply (well_formed_cells _ _ _ Hg'). intros p q Hp Hq.
    rewrite Hcells by done.
    pose proof (well_formed_cell _ _ _ _ _ Hg Hwf Hp Hq) as Hsent.
    destruct (_ && _); [|done]. by apply branch_sentinel.
  - intros i j Hi Hj. exists (cellZ g i j), (ntotal g N i j).
    split; [apply (getitem_ok Hg); lia|].
    split; [by apply (total_block HN' Hg Hr Hc)|].
    rewrite (getitem_ok Hg') by lia. f_equal. unfold cellZ.
    rewrite Hcells by lia. unfold swept.
    destruct (Nat.ltb_spec (Z.to_nat j) (Z.to_nat N)); [|lia].
    destruct (Nat.ltb_spec (Z.to_nat i) (Z.to_nat N)); [|lia]. simpl.
    unfold next_cell. by rewrite !Z2Nat.id by lia.
  - intros i j Hi Hj Hout.
    rewrite (getitem_ok Hg'), (getitem_ok Hg) by lia. f_equal. unfold cellZ.
    rewrite Hcells by lia. unfold swept.
    destruct (Nat.ltb_spec (Z.to_nat j) (Z.to_nat N)); [|done].
    destruct (Nat.ltb_spec (Z.to_nat i) (Z.to_nat N)); [lia|]. simpl.
    destruct (Nat.eqb_spec (Z.to_nat i) (Z.to_nat N)); [|done].
    simpl. by destruct (Nat.ltb_spec (Z.to_nat j) 0); [lia|].
Qed.

Lemma update_touches_only_the_block_witness :
  ∃ g', update 0 no_image blinker5 3 = Ok (set_data no_image g', g') ∧
        is_array 5 5 g' ∧ well_formed g' ∧
        (∀ i j, 0 ≤ i < 3 → 0 ≤ j < 3 →
           ∃ cur t, Np.getitem blinker5 i j = Ok cur ∧ total blinker5 3 i j = Ok t ∧
                    Np.getitem g' i j = Ok (branch cur t)) ∧
        (∀ i j, 0 ≤ i < Z.of_nat 5 → 0 ≤ j < Z.of_nat 5 → 3 ≤ i ∨ 3 ≤ j →
           Np.getitem g' i j = Np.getitem blinker5 i j).
Proof.
  apply (update_touches_only_the_block 5 5 blinker5 3 0 no_image);
    [by_evaluation | by_evaluation | simpl; lia | simpl; lia].
Defined.

(** ** More about one generation *)

Lemma flip_is_grid N g : is_grid N (flip N g).
Proof. apply tabulate_is_grid. Qed.

Lemma wrap_pred_flip N x :
  1 ≤ N → 0 ≤ x < N → N - 1 - (x - 1) mod N = (N - 1 - x + 1) mod N.
Proof.
  intros HN Hx. destruct (decide (x = 0)) as [->|Hne].
  - rewrite wrap_minus_one by done.
    replace (N - 1 - 0 + 1) with N by lia. rewrite Z.mod_same by lia. lia.
  - rewrite !Z.mod_small by lia. lia.
Qed.

Lemma wrap_succ_flip N x :
  1 ≤ N → 0 ≤ x < N → N - 1 - (x + 1) mod N = (N - 1 - x - 1) mod N.
Proof.
  intros HN Hx. destruct (decide (x = N - 1)) as [->|Hne].
  - replace (N - 1 + 1) with N by lia. rewrite Z.mod_same by lia.
    replace (N - 1 - (N - 1) - 1) with (0 - 1) by lia.
    rewrite wrap_minus_one by done. lia.
  - rewrite !Z.mod_small by lia. lia.
Qed.

Lemma nsum_flip N g i j :
  1 ≤ N → 0 ≤ i < N → 0 ≤ j < N →
  nsum (flip N g) N i j = nsum g N (N - 1 - i) j.
Proof.
  intros HN Hi Hj. pose proof (wrap_in_range HN) as Hw.
  unfold nsum, flip. rewrite !cellZ_tabulate by (done || apply Hw).
  rewrite !wrap_pred_flip, !wrap_succ_flip by done. lia.
Qed.

Lemma next_grid_flip N g :
  1 ≤ N → is_grid N g →
  next_grid (flip N g) N = flip N (next_grid g N).
Proof.
  intros HN Hg.
  symmetry.
  apply (grid_extZ N);
    [apply flip_is_grid | apply next_grid_is_array, flip_is_grid |].
  intros i j Hi Hj.
  rewrite (cellZ_next_grid _ _ _ _ (flip_is_grid N g)) by done.
  rewrite nsum_flip by done. unfold flip at 1 2.
  rewrite !cellZ_tabulate by done.
  by rewrite (cellZ_next_grid _ _ _ _ Hg) by lia.
Qed.

(** X12 — mirror image.  For a well-formed N x N grid (N >= 1), the
    grid with its rows in reverse order is well-formed too, and [update]
    of the
    array with its rows in reverse order is [update] of the array with
    the rows of the result reversed. *)
Theorem update_commutes_with_flip N g frame_num img :
  1 ≤ N → is_grid N g → well_formed g →
  well_formed (flip N g) ∧
  ∃ g', update frame_num img g N = Ok (set_data img g', g') ∧
        update frame_num img (flip N g) N =
          Ok (set_data img (flip N g'), flip N g').
Proof.
  intros HN Hg Hwf. pose proof (wrap_in_range HN) as Hw. split.
  - apply tabulate_well_formed. intros i j Hi Hj.
    apply (well_formed_cellZ_sentinel N g); (done || lia || apply Hw).
  - exists (next_grid g N). split; [by apply update_ok|].
    rewrite (update_ok _ _ _ _ (flip_is_grid N g)).
    by rewrite next_grid_flip.
Qed.

Lemma update_commutes_with_flip_witness :
  well_formed (flip 5 corner5) ∧
  ∃ g', update 0 no_image corner5 5 = Ok (set_data no_image g', g') ∧
        update 0 no_image (flip 5 corner5) 5 =
          Ok (set_data no_image (flip 5 g'), flip 5 g').
Proof.
  apply (update_commutes_with_flip 5 corner5 0 no_image); [lia | by_evaluation | by_evaluation].
Defined.

Lemma nsum_local N g1 g2 i j :
  Forall (λ pos, cellZ g1 pos.1 pos.2 = cellZ g2 pos.1 pos.2) (reads N i j) →
  nsum g1 N i j = nsum g2 N i j ∧ cellZ g1 i j = cellZ g2 i j.
Proof.
  unfold reads. intros Hreads.
  repeat match goal with
         | H : Forall _ (_ :: _) |- _ =>
             let Hx := fresh "Hx" in
             apply Forall_cons_1 in H as [Hx H]; simpl in Hx
         end.
  unfold nsum. split; [|done]. congruence.
Qed.

(** X13 — one cell's next value depends on nine cells only.  If two
    well-formed N x N grids agree on the eight wrapped neighbours of (i, j) and on
    (i, j) itself, then after [update] they agree at (i, j), whatever the
    rest of the two grids holds. *)
Theorem update_is_local N g1 g2 i j frame_num img :
  is_grid N g1 → is_grid N g2 → well_formed g1 → well_formed g2 →
  0 ≤ i < N → 0 ≤ j < N →
  Forall (λ pos, Np.getitem g1 pos.1 pos.2 = Np.getitem g2 pos.1 pos.2)
    (reads N i j) →
  ∃ g1' g2',
    update frame_num img g1 N = Ok (set_data img g1', g1') ∧
    update frame_num img g2 N = Ok (set_data img g2', g2') ∧
    Np.getitem g1' i j = Np.getitem g2' i j.
Proof.
  intros H1 H2 _ _ Hi Hj Hreads.
  assert (HN : 1 ≤ N) by lia. pose proof (wrap_in_range HN) as Hw.
  exists (next_grid g1 N), (next_grid g2 N).
  split; [by apply update_ok|]. split; [by apply update_ok|].
  rewrite (getitem_grid HN (next_grid_is_array _ _ _ N H1)) by done.
  rewrite (getitem_grid HN (next_grid_is_array _ _ _ N H2)) by done.
  rewrite !cellZ_next_grid by done.
  destruct (nsum_local N g1 g2 i j) as [-> ->]; [|done].
  unfold reads in *.
  repeat match goal with
         | H : Forall _ (_ :: _) |- _ =>
             let Hx := fresh "Hx" in
             apply Forall_cons_1 in H as [Hx H]; simpl in Hx;
             rewrite (getitem_grid HN H1), (getitem_grid HN H2) in Hx
               by (done || apply Hw);
             injection Hx as Hx
         end.
  repeat (apply Forall_cons_2; [done|]). apply Forall_nil_2.
Qed.

Lemma update_is_local_witness :
  ∃ g1' g2',
    update 0 no_image blinker5 5 = Ok (set_data no_image g1', g1') ∧
    update 0 no_image blinker5_and_corner 5 = Ok (set_data no_image g2', g2') ∧
    Np.getitem g1' 1 2 = Np.getitem g2' 1 2.
Proof.
  apply (update_is_local 5 blinker5 blinker5_and_corner 1 2 0 no_image);
    [by_evaluation | by_evaluation | by_evaluation | by_evaluation | lia | lia |].
  repeat (apply Forall_cons_2; [reflexivity|]). apply Forall_nil_2.
Defined.

Lemma main_setup_glider alloc rng args :
  parses (arg_N args) → parses (arg_interval args) → arg_glider args = true →
  (∀ N, grid_size (arg_N args) = Ok N → alloc (N * N) = None) →
  ∃ N interval,
    9 ≤ N ∧
    main_setup alloc rng args = Ok (N, interval, pattern_grid N (glider_at 1 1)).
Proof.
  intros HpN Hpi Hglider Hroom.
  destruct (grid_size_parsed _ HpN) as (N & HN & Hge & _).
  specialize (Hroom N HN).
  assert (Hiv : ∃ interval, interval_of (arg_interval args) = Ok interval).
  { destruct (arg_interval args) as [[iv|e]|]; [by exists iv | done | by exists 50]. }
  destruct Hiv as [interval Hiv]. exists N, interval. split; [done|].
  unfold main_setup. rewrite HN, bind_Ok, Hiv, bind_Ok, Hglider.
  rewrite zeros_flat, bind_Ok, zeros_reshape, bind_Ok by (done || lia).
  rewrite (add_glider_inside _ _ _ 1 1 (zeros_is_grid N)) by lia.
  rewrite bind_Ok. by rewrite (stamp_zeros N 1 1).
Qed.

(** X14 — the glider demonstration.  With [--glider], numeric options
    that are numbers and a grid size N whose N * N cells numpy can
    allocate, the grid that [main] seeds becomes, after four calls of
    [update] by the animation, the all-DEAD grid with the glider stamped
    at (2, 2). *)
Theorem main_glider_run alloc rng args img f1 f2 f3 f4 :
  parses (arg_N args) → parses (arg_interval args) → arg_glider args = true →
  (∀ N, grid_size (arg_N args) = Ok N → alloc (N * N) = None) →
  ∃ N interval g0 g4,
    main_setup alloc rng args = Ok (N, interval, g0) ∧
    add_glider 2 2 (zeros N) = Ok g4 ∧
    animate [f1; f2; f3; f4] img g0 N = Ok (set_data img g4, g4).
Proof.
  intros HpN Hpi Hglider Hroom.
  destruct (main_setup_glider alloc rng args HpN Hpi Hglider Hroom)
    as (N & interval & HN & Hrun).
  exists N, interval, (pattern_grid N (glider_at 1 1)), (pattern_grid N (glider_at 2 2)).
  split; [done|]. split.
  - rewrite (add_glider_inside _ _ _ 2 2 (zeros_is_grid N)) by lia.
    by rewrite <- (stamp_zeros N 2 2).
  - do 4 (rewrite (animate_pattern 4) by (by_evaluation || lia)).
    reflexivity.
Qed.

Lemma main_glider_run_witness :
  ∃ N interval g0 g4,
    main_setup roomy (λ _, false)
      {| arg_N := Some (Ok 12); arg_interval := Some (Ok 20); arg_glider := true |}
      = Ok (N, interval, g0) ∧
    add_glider 2 2 (zeros N) = Ok g4 ∧
    animate [0; 1; 2; 3] no_image g0 N = Ok (set_data no_image g4, g4).
Proof.
  apply (main_glider_run roomy (λ _, false)
           {| arg_N := Some (Ok 12); arg_interval := Some (Ok 20); arg_glider := true |}
           no_image 0 1 2 3);
    [exact I | exact I | reflexivity | intros N _; reflexivity].
Defined.
